(** * chat-ai: the tutor route and the response decoders of the chat page

    A shallow embedding of [src/app/page.tsx] (the decoders [parseExplained]
    and [parseInformal], the component [AssistantMessage]) and of
    [src/app/api/tutor/route.ts] ([getGroq], [systemPrompt], [POST]),
    together with the part of the JavaScript runtime these functions run on:
    strings of UTF-16 code units, [String.prototype.trim], the regular
    expression that removes code fences, [JSON.parse] and the coercions
    [String], [Number] and [Boolean]. *)

From Stdlib Require Import String Ascii List NArith ZArith Bool Lia.
From Stdlib Require Import DecimalString.
Import ListNotations.

(** ** JavaScript strings *)

Module JS.

(** A JavaScript string is a sequence of UTF-16 code units. *)
Definition char := N.
Definition jsstring := list char.

(** [js "abc"] is the JavaScript string with the same (ASCII) characters. *)
Definition js (s : string) : jsstring :=
  List.map N_of_ascii (list_ascii_of_string s).

Definition quote : jsstring := [34%N].
Definition newline : jsstring := [10%N].

(** [s] between double quotes. *)
Definition quoted (s : string) : jsstring := quote ++ js s ++ quote.

Definition char_eqb : char -> char -> bool := N.eqb.

Fixpoint str_eqb (a b : jsstring) : bool :=
  match a, b with
  | [], [] => true
  | x :: a', y :: b' => char_eqb x y && str_eqb a' b'
  | _, _ => false
  end.

(** [strip_prefix p s] is [Some r] when [s = p ++ r]. *)
Fixpoint strip_prefix (p s : jsstring) : option jsstring :=
  match p, s with
  | [], _ => Some s
  | x :: p', y :: s' => if char_eqb x y then strip_prefix p' s' else None
  | _ :: _, [] => None
  end.

Definition starts_with (p s : jsstring) : bool :=
  match strip_prefix p s with Some _ => true | None => false end.

(** The characters matched by [\s] in a regular expression and removed by
    [trim]: WhiteSpace and LineTerminator of ECMA-262. *)
Definition isWhiteSpace (c : char) : bool :=
  match c with
  | 9 | 10 | 11 | 12 | 13 | 32 | 160 | 5760 => true
  | 8232 | 8233 | 8239 | 8287 | 12288 | 65279 => true
  | _ => (8192 <=? c) && (c <=? 8202)
  end%N.

Fixpoint dropWhile (p : char -> bool) (s : jsstring) : jsstring :=
  match s with
  | [] => []
  | c :: r => if p c then dropWhile p r else s
  end.

Fixpoint takeWhile (p : char -> bool) (s : jsstring) : jsstring :=
  match s with
  | [] => []
  | c :: r => if p c then c :: takeWhile p r else []
  end.

Definition trimStart (s : jsstring) : jsstring := dropWhile isWhiteSpace s.
Definition trimEnd (s : jsstring) : jsstring :=
  rev (dropWhile isWhiteSpace (rev s)).

(** [String.prototype.trim]. *)
Definition trim (s : jsstring) : jsstring := trimEnd (trimStart s).

(** *** The code-fence pattern

    [/```json?\s*|\s*```/g]: three backticks followed by [jso], an optional
    [n] and any white space; or any white space followed by three backticks. *)

Definition backtick : char := 96%N.
Definition fence : jsstring := [backtick; backtick; backtick].

(** One attempt of the pattern at the start of [s]: the number of code
    units matched, if it matches. The first alternative is tried first; its
    optional [n] and its [\s*] are greedy and nothing follows them. In the
    second alternative [\s*] takes the whole run of white space: giving
    some back leaves a white space character where a backtick is needed. *)
Definition match_fence (s : jsstring) : option nat :=
  match strip_prefix (fence ++ js "jso") s with
  | Some r =>
      let r' := match strip_prefix (js "n") r with Some t => t | None => r end in
      Some (length s - length (dropWhile isWhiteSpace r'))
  | None =>
      let w := takeWhile isWhiteSpace s in
      if starts_with fence (dropWhile isWhiteSpace s)
      then Some (length w + 3)
      else None
  end.

(** [String.prototype.replace] with the global pattern and the empty
    string: the text is scanned from left to right; where the pattern
    matches, the match is dropped and the scan goes on after it; elsewhere
    the character is kept. [skip] counts the code units of the current
    match that are still to be dropped. *)
Fixpoint replace_from (skip : nat) (s : jsstring) : jsstring :=
  match s with
  | [] => []
  | c :: r =>
      match skip with
      | S k => replace_from k r
      | O =>
          match match_fence s with
          | Some n => replace_from (pred n) r
          | None => c :: replace_from 0 r
          end
      end
  end.

Definition replace_fences (s : jsstring) : jsstring := replace_from 0 s.

(** Some code fence occurs in [s]. *)
Fixpoint has_fence (s : jsstring) : bool :=
  starts_with fence s || match s with [] => false | _ :: r => has_fence r end.

(** The last character of [s] is white space. *)
Definition ends_with_space (s : jsstring) : bool :=
  match rev s with
  | c :: _ => isWhiteSpace c
  | [] => false
  end.

(** No backtick occurs in [s]. *)
Definition no_backtick (s : jsstring) : bool :=
  forallb (fun c => negb (c =? backtick)%N) s.

(** [Subseq a b]: [a] is [b] with some of its characters deleted. *)
Inductive Subseq : jsstring -> jsstring -> Prop :=
| Subseq_nil : Subseq [] []
| Subseq_keep c a b : Subseq a b -> Subseq (c :: a) (c :: b)
| Subseq_drop c a b : Subseq a b -> Subseq a (c :: b).

(** *** Exceptions

    A computation either returns or throws: [Ok a] or [Throw e]. *)

Inductive result (E A : Type) : Type :=
| Ok (a : A)
| Throw (e : E).
Arguments Ok {E A} a.
Arguments Throw {E A} e.

Definition bind {E A B} (m : result E A) (k : A -> result E B) : result E B :=
  match m with
  | Ok a => k a
  | Throw e => Throw e
  end.

Notation "x <- m ;; k" := (bind m (fun x => k))
  (at level 61, m at next level, right associativity).

(** The errors the runtime raises in the functions modelled here. *)
Inductive js_error : Type := SyntaxError | TypeError.

(** ** Numbers

    A JavaScript number is NaN, an infinity, or a finite value. The finite
    values are kept as exact decimals, [(-1)^negative * m * 10^e]; the
    rounding to binary64 is outside this model. [Finite] values are built
    with [finite], which keeps [m] free of trailing zeros, so that equal
    values are equal terms; the sign of a zero is kept, as JavaScript does. *)

Inductive number : Type :=
| NaN
| Infinity (negative : bool)
| Finite (negative : bool) (m : N) (e : Z).

Fixpoint strip_zeros (fuel : nat) (m : N) (e : Z) : N * Z :=
  match fuel with
  | O => (m, e)
  | S f =>
      if (m mod 10 =? 0)%N then strip_zeros f (m / 10)%N (e + 1)%Z else (m, e)
  end.

Definition finite (negative : bool) (m : N) (e : Z) : number :=
  if (m =? 0)%N then Finite negative 0 0
  else let '(m', e') := strip_zeros (N.to_nat (N.size m)) m e in
       Finite negative m' e'.

Definition of_N (n : N) : number := finite false n 0.

Definition isNaN (x : number) : bool :=
  match x with NaN => true | _ => false end.

Definition isDigit (c : char) : bool := ((48 <=? c) && (c <=? 57))%N.

Definition hex_value (c : char) : option N :=
  if isDigit c then Some (c - 48)%N
  else if ((97 <=? c) && (c <=? 102))%N then Some (c - 87)%N
  else if ((65 <=? c) && (c <=? 70))%N then Some (c - 55)%N
  else None.

(** The value of a string of digits in base [base]; [None] if the string
    is empty or holds a character that is not a digit of that base. *)
Fixpoint digits_from (base acc : N) (s : jsstring) : option N :=
  match s with
  | [] => Some acc
  | c :: r =>
      match hex_value c with
      | Some d => if (d <? base)%N then digits_from base (acc * base + d)%N r
                  else None
      | None => None
      end
  end.

Definition digits_value (base : N) (s : jsstring) : option N :=
  match s with
  | [] => None
  | _ => digits_from base 0 s
  end.

(** The parts of an unsigned decimal literal: the digits before the dot,
    the digits after it when there is a dot, and the exponent. Nothing may
    follow the literal. *)
Definition scan_decimal (u : jsstring)
  : option (jsstring * option jsstring * Z) :=
  let ip := takeWhile isDigit u in
  let r1 := dropWhile isDigit u in
  let '(fp, r2) :=
    match r1 with
    | 46%N :: r => (Some (takeWhile isDigit r), dropWhile isDigit r)
    | _ => (None, r1)
    end in
  match r2 with
  | [] => Some (ip, fp, 0%Z)
  | c :: r3 =>
      if (c =? 101)%N || (c =? 69)%N then
        let '(neg, r4) :=
          match r3 with
          | 43%N :: r => (false, r)
          | 45%N :: r => (true, r)
          | _ => (false, r3)
          end in
        match digits_value 10 r4 with
        | Some x => Some (ip, fp, if neg then (- Z.of_N x)%Z else Z.of_N x)
        | None => None
        end
      else None
  end.

Definition decimal_value (negative : bool) (ip fp : jsstring) (ex : Z)
  : option number :=
  match digits_from 10 0 (ip ++ fp) with
  | Some m => Some (finite negative m (ex - Z.of_nat (length fp)))
  | None => None
  end.

(** A JSON number: an optional minus sign; [0], or digits that do not
    start with [0]; optionally a dot and at least one digit; optionally an
    exponent. *)
Definition json_number (w : jsstring) : option number :=
  let '(neg, u) :=
    match w with 45%N :: r => (true, r) | _ => (false, w) end in
  match scan_decimal u with
  | Some (ip, fp, ex) =>
      let int_ok :=
        match ip with
        | [] => false
        | [_] => true
        | d :: _ => negb (d =? 48)%N
        end in
      let frac_ok := match fp with Some [] => false | _ => true end in
      if int_ok && frac_ok
      then decimal_value neg ip (match fp with Some f => f | None => [] end) ex
      else None
  | None => None
  end.

(** StringToNumber of ECMA-262, the conversion behind [Number(s)]: white
    space is trimmed; the empty string is 0; then a hexadecimal, octal or
    binary integer, or an optionally signed [Infinity] or decimal literal
    ([5], [5.], [5.5], [.5], each with an optional exponent); anything else
    is NaN. *)
Definition StringToNumber (s : jsstring) : number :=
  let t := trim s in
  let radix (base : N) (r : jsstring) :=
    match digits_value base r with Some n => of_N n | None => NaN end in
  match t with
  | [] => Finite false 0 0
  | 48%N :: 120%N :: r | 48%N :: 88%N :: r => radix 16%N r
  | 48%N :: 111%N :: r | 48%N :: 79%N :: r => radix 8%N r
  | 48%N :: 98%N :: r | 48%N :: 66%N :: r => radix 2%N r
  | _ =>
      let '(neg, u) :=
        match t with
        | 43%N :: r => (false, r)
        | 45%N :: r => (true, r)
        | _ => (false, t)
        end in
      if str_eqb u (js "Infinity") then Infinity neg
      else
        match scan_decimal u with
        | Some (ip, fp, ex) =>
            let f := match fp with Some f => f | None => [] end in
            match ip ++ f with
            | [] => NaN
            | _ => match decimal_value neg ip f ex with
                   | Some x => x
                   | None => NaN
                   end
            end
        | None => NaN
        end
  end.

(** The decimal digits of [n]. *)
Definition dec_digits (n : N) : jsstring :=
  js (NilEmpty.string_of_uint (N.to_uint n)).

(** Number::toString of ECMA-262 (radix 10), on the decimal digits of the
    value: [k] digits, decimal point after the [n]-th. *)
Definition number_toString (x : number) : jsstring :=
  match x with
  | NaN => js "NaN"
  | Infinity neg => (if neg then js "-" else []) ++ js "Infinity"
  | Finite neg m0 e0 =>
      match finite neg m0 e0 with
      | Finite _ 0%N _ => js "0"
      | Finite _ m e =>
          let ds := dec_digits m in
          let k := Z.of_nat (length ds) in
          let n := (k + e)%Z in
          (if neg then js "-" else []) ++
          if ((k <=? n) && (n <=? 21))%Z
          then ds ++ repeat 48%N (Z.to_nat (n - k))
          else if ((0 <? n) && (n <=? 21))%Z
          then firstn (Z.to_nat n) ds ++ js "." ++ skipn (Z.to_nat n) ds
          else if ((-6 <? n) && (n <=? 0))%Z
          then js "0." ++ repeat 48%N (Z.to_nat (- n)) ++ ds
          else
            let suffix :=
              js "e" ++ (if (n - 1 <? 0)%Z then js "-" else js "+")
                     ++ dec_digits (Z.abs_N (n - 1)) in
            match ds with
            | [] => []
            | [d] => d :: suffix
            | d :: rest => d :: js "." ++ rest ++ suffix
            end
      | _ => js "NaN"
      end
  end.

(** ** JSON values

    The values [JSON.parse] returns. An object keeps its members in the
    order of the text; a key that occurs twice is bound to the later
    value. *)

#[warnings="-register-all"]
Inductive json : Type :=
| JNull
| JBool (b : bool)
| JNumber (n : number)
| JString (s : jsstring)
| JArray (elements : list json)
| JObject (members : list (jsstring * json)).

(** The own property [k] of an object with the members [ms]. *)
Fixpoint obj_get (k : jsstring) (ms : list (jsstring * json)) : option json :=
  match ms with
  | [] => None
  | (k', v) :: r =>
      match obj_get k r with
      | Some v' => Some v'
      | None => if str_eqb k k' then Some v else None
      end
  end.

Definition obj_has (k : jsstring) (ms : list (jsstring * json)) : bool :=
  match obj_get k ms with Some _ => true | None => false end.

(** *** JSON.parse: the tokens *)

Inductive token : Type :=
| TLBrace | TRBrace | TLBracket | TRBracket | TColon | TComma
| TString (s : jsstring)
| TLiteral (v : json).

(** What the lexer is in the middle of: nothing, a string literal (its
    characters so far, last first), an escape, a [\u] escape (its digits so
    far), or a number or keyword (its characters so far, last first). *)
Inductive lex_mode : Type :=
| LStart
| LString (acc : jsstring)
| LEscape (acc : jsstring)
| LUnicode (acc : jsstring) (digits : list N)
| LWord (acc : jsstring).

Definition isJsonSpace (c : char) : bool :=
  match c with 32 | 9 | 10 | 13 => true | _ => false end%N.

Definition isWordChar (c : char) : bool :=
  (isDigit c || ((97 <=? c) && (c <=? 122)) || ((65 <=? c) && (c <=? 90))
   || (c =? 43) || (c =? 45) || (c =? 46))%N.

Definition punctuation (c : char) : option token :=
  match c with
  | 123 => Some TLBrace
  | 125 => Some TRBrace
  | 91 => Some TLBracket
  | 93 => Some TRBracket
  | 58 => Some TColon
  | 44 => Some TComma
  | _ => None
  end%N.

(** A maximal run of letters, digits, signs and dots is one of the three
    keywords or a number. *)
Definition word_token (w : jsstring) : option token :=
  if str_eqb w (js "true") then Some (TLiteral (JBool true))
  else if str_eqb w (js "false") then Some (TLiteral (JBool false))
  else if str_eqb w (js "null") then Some (TLiteral JNull)
  else match json_number w with
       | Some n => Some (TLiteral (JNumber n))
       | None => None
       end.

Definition escape_char (c : char) : option char :=
  match c with
  | 34 => Some 34 | 92 => Some 92 | 47 => Some 47
  | 98 => Some 8 | 102 => Some 12 | 110 => Some 10
  | 114 => Some 13 | 116 => Some 9
  | _ => None
  end%N.

(** The lexer outside of a token; the tokens so far are kept last first. *)
Definition lex_start (toks : list token) (c : char)
  : option (lex_mode * list token) :=
  if isJsonSpace c then Some (LStart, toks)
  else if (c =? 34)%N then Some (LString [], toks)
  else if isWordChar c then Some (LWord [c], toks)
  else match punctuation c with
       | Some t => Some (LStart, t :: toks)
       | None => None
       end.

Definition lex_step (st : lex_mode * list token) (c : char)
  : option (lex_mode * list token) :=
  let '(mode, toks) := st in
  match mode with
  | LStart => lex_start toks c
  | LString acc =>
      if (c =? 34)%N then Some (LStart, TString (rev acc) :: toks)
      else if (c =? 92)%N then Some (LEscape acc, toks)
      else if (c <? 32)%N then None
      else Some (LString (c :: acc), toks)
  | LEscape acc =>
      if (c =? 117)%N then Some (LUnicode acc [], toks)
      else match escape_char c with
           | Some x => Some (LString (x :: acc), toks)
           | None => None
           end
  | LUnicode acc ds =>
      match hex_value c with
      | Some d =>
          match ds with
          | [d1; d2; d3] =>
              Some (LString ((((d1 * 16 + d2) * 16 + d3) * 16 + d)%N :: acc), toks)
          | _ => Some (LUnicode acc (ds ++ [d]), toks)
          end
      | None => None
      end
  | LWord acc =>
      if isWordChar c then Some (LWord (c :: acc), toks)
      else match word_token (rev acc) with
           | Some t => lex_start (t :: toks) c
           | None => None
           end
  end.

Fixpoint lex_from (st : lex_mode * list token) (s : jsstring)
  : option (list token) :=
  match s with
  | [] =>
      match st with
      | (LStart, toks) => Some (rev toks)
      | (LWord acc, toks) =>
          match word_token (rev acc) with
          | Some t => Some (rev (t :: toks))
          | None => None
          end
      | _ => None
      end
  | c :: r =>
      match lex_step st c with
      | Some st' => lex_from st' r
      | None => None
      end
  end.

Definition lex (s : jsstring) : option (list token) := lex_from (LStart, []) s.

(** *** JSON.parse: the grammar

    The values under construction are kept on a stack: an array with its
    elements so far, or an object with its members so far and the key whose
    value is being read (elements and members last first). *)

Inductive frame : Type :=
| FArray (elements : list json)
| FObject (members : list (jsstring * json)) (key : jsstring).

Inductive parse_state : Type :=
| PValue (stack : list frame)
| PArrayStart (stack : list frame)
| PAfterElement (elements : list json) (stack : list frame)
| PObjectStart (stack : list frame)
| PKey (members : list (jsstring * json)) (stack : list frame)
| PColon (members : list (jsstring * json)) (key : jsstring) (stack : list frame)
| PAfterMember (members : list (jsstring * json)) (stack : list frame)
| PDone (v : json).

(** A value is complete: it is the result, or it goes into the array or
    object on top of the stack. *)
Definition complete (v : json) (stack : list frame) : parse_state :=
  match stack with
  | [] => PDone v
  | FArray es :: st => PAfterElement (v :: es) st
  | FObject ms k :: st => PAfterMember ((k, v) :: ms) st
  end.

Definition parse_value (stack : list frame) (t : token) : option parse_state :=
  match t with
  | TLiteral v => Some (complete v stack)
  | TString s => Some (complete (JString s) stack)
  | TLBracket => Some (PArrayStart stack)
  | TLBrace => Some (PObjectStart stack)
  | _ => None
  end.

Definition parse_step (st : parse_state) (t : token) : option parse_state :=
  match st with
  | PValue stack => parse_value stack t
  | PArrayStart stack =>
      match t with
      | TRBracket => Some (complete (JArray []) stack)
      | _ => parse_value (FArray [] :: stack) t
      end
  | PAfterElement es stack =>
      match t with
      | TComma => Some (PValue (FArray es :: stack))
      | TRBracket => Some (complete (JArray (rev es)) stack)
      | _ => None
      end
  | PObjectStart stack =>
      match t with
      | TRBrace => Some (complete (JObject []) stack)
      | TString k => Some (PColon [] k stack)
      | _ => None
      end
  | PKey ms stack =>
      match t with
      | TString k => Some (PColon ms k stack)
      | _ => None
      end
  | PColon ms k stack =>
      match t with
      | TColon => Some (PValue (FObject ms k :: stack))
      | _ => None
      end
  | PAfterMember ms stack =>
      match t with
      | TComma => Some (PKey ms stack)
      | TRBrace => Some (complete (JObject (rev ms)) stack)
      | _ => None
      end
  | PDone _ => None
  end.

Fixpoint parse_from (st : parse_state) (ts : list token) : option json :=
  match ts with
  | [] => match st with PDone v => Some v | _ => None end
  | t :: r =>
      match parse_step st t with
      | Some st' => parse_from st' r
      | None => None
      end
  end.

(** [JSON.parse(text)]: the value, or a SyntaxError. *)
Definition JSON_parse (text : jsstring) : result js_error json :=
  match lex text with
  | Some ts =>
      match parse_from (PValue []) ts with
      | Some v => Ok v
      | None => Throw SyntaxError
      end
  | None => Throw SyntaxError
  end.

(** ** Coercions

    [String], [Number] and [Boolean] on the values [JSON.parse] returns. A
    property that is not there reads as [undefined], here [None]. *)

(** ToString. An array is its elements joined with commas, [null] elements
    as the empty string. An object is converted by [Object.prototype.toString]
    unless it has a member [toString] of its own: such a member is not a
    function, [valueOf] gives back the object, and the conversion throws. *)
Fixpoint ToString (v : json) : result js_error jsstring :=
  match v with
  | JNull => Ok (js "null")
  | JBool b => Ok (if b then js "true" else js "false")
  | JNumber n => Ok (number_toString n)
  | JString s => Ok s
  | JArray es =>
      (fix join (first : bool) (l : list json) : result js_error jsstring :=
         match l with
         | [] => Ok []
         | x :: r =>
             next <- match x with JNull => Ok [] | _ => ToString x end ;;
             rest <- join false r ;;
             Ok ((if first then [] else js ",") ++ next ++ rest)
         end) true es
  | JObject ms =>
      if obj_has (js "toString") ms then Throw TypeError
      else Ok (js "[object Object]")
  end.

(** ToNumber: arrays and objects go through their string. *)
Definition ToNumber (v : json) : result js_error number :=
  match v with
  | JNull => Ok (Finite false 0 0)
  | JBool b => Ok (if b then of_N 1 else Finite false 0 0)
  | JNumber n => Ok n
  | JString s => Ok (StringToNumber s)
  | JArray _ | JObject _ => s <- ToString v ;; Ok (StringToNumber s)
  end.

Definition ToBoolean (v : json) : bool :=
  match v with
  | JNull => false
  | JBool b => b
  | JNumber NaN => false
  | JNumber (Finite _ m _) => negb (m =? 0)%N
  | JNumber (Infinity _) => true
  | JString s => match s with [] => false | _ => true end
  | JArray _ | JObject _ => true
  end.

Definition String_of (x : option json) : result js_error jsstring :=
  match x with
  | Some v => ToString v
  | None => Ok (js "undefined")
  end.

Definition Number_of (x : option json) : result js_error number :=
  match x with
  | Some v => ToNumber v
  | None => Ok NaN
  end.

Definition Boolean_of (x : option json) : bool :=
  match x with
  | Some v => ToBoolean v
  | None => false
  end.

(** [x ?? d]: [d] when [x] is [null] or [undefined]. *)
Definition nullish (x : option json) (d : json) : option json :=
  match x with
  | None | Some JNull => Some d
  | Some v => Some v
  end.

(** [x ?? d] for a number [x]: a number is neither [null] nor [undefined]
    (NaN is a number), so the value is [x]. *)
Definition nullish_number (x d : number) : number := x.

(** [typeof v === "object"]: also true of [null]. *)
Definition typeof_object (v : json) : bool :=
  match v with
  | JNull | JArray _ | JObject _ => true
  | _ => false
  end.

(** [k in v] for the keys asked for below, none of which is an index,
    [length] or a property of [Object.prototype] or [Array.prototype]: a
    member of the object itself. *)
Definition has_property (k : jsstring) (v : json) : bool :=
  match v with
  | JObject ms => obj_has k ms
  | _ => false
  end.

(** [v.k] for such a key. *)
Definition get_property (k : jsstring) (v : json) : option json :=
  match v with
  | JObject ms => obj_get k ms
  | _ => None
  end.

Definition catch {E A} (m : result E A) (handler : E -> A) : A :=
  match m with
  | Ok a => a
  | Throw e => handler e
  end.

End JS.

(** ** The tutor's types ([@/types/tutor]) *)

Module Tutor.

(** Modelled from the spec: the type declarations of [@/types/tutor], which
    the sources import: TargetLanguage is an enumerated value in en, de;
    Mode is an enumerated value in translate, explain, correct, informal. *)
Inductive TutorLanguage : Type := en | de.
Inductive TutorMode : Type := translate | explain | correct | informal.

End Tutor.

(** ** The chat page ([src/app/page.tsx]) *)

Module Page.
Import JS.

Record Explained : Type := {
  corrected : jsstring;
  translation : jsstring;
  explanation : jsstring;
  naturalSuggestion : jsstring;
  score : number
}.

(** The field [translation] of the source is [informalTranslation] here:
    [Explained] has a field of that name already. *)
Record InformalResponse : Type := {
  informal : jsstring;
  alreadyCorrect : bool;
  informalTranslation : jsstring
}.

(** The text both decoders parse: the content with the matches of the
    code-fence pattern replaced by the empty string, then trimmed. *)
Definition stripFences (content : jsstring) : jsstring :=
  trim (replace_fences content).

(** [String] of [o.k ?? s] with [s] the empty string: the member [k] as a string, the empty string
    when it is [null] or not there. *)
Definition string_field (k : jsstring) (o : json) : result js_error jsstring :=
  String_of (nullish (get_property k o) (JString [])).

(** The body of the [try] block of [parseExplained]: it may throw, and
    returns [None] where the source falls through to [return null]. *)
Definition explained_try (raw : jsstring) : result js_error (option Explained) :=
  o <- JSON_parse raw ;;
  if ToBoolean o && typeof_object o
     && has_property (js "corrected") o
     && has_property (js "explanation") o
     && has_property (js "naturalSuggestion") o
     && has_property (js "score") o
  then
    c <- string_field (js "corrected") o ;;
    t <- string_field (js "translation") o ;;
    e <- string_field (js "explanation") o ;;
    n <- string_field (js "naturalSuggestion") o ;;
    s <- Number_of (get_property (js "score") o) ;;
    Ok (Some {| corrected := c;
                translation := t;
                explanation := e;
                naturalSuggestion := n;
                score := nullish_number s (of_N 0) |})
  else Ok None.

Definition parseExplained (content : jsstring) : option Explained :=
  let raw := stripFences content in
  catch (explained_try raw) (fun _ => None).

Definition informal_try (raw : jsstring)
  : result js_error (option InformalResponse) :=
  o <- JSON_parse raw ;;
  if ToBoolean o && typeof_object o
     && has_property (js "informal") o
     && has_property (js "alreadyCorrect") o
     && has_property (js "translation") o
  then
    i <- string_field (js "informal") o ;;
    let a := Boolean_of (get_property (js "alreadyCorrect") o) in
    t <- string_field (js "translation") o ;;
    Ok (Some {| informal := i;
                alreadyCorrect := a;
                informalTranslation := t |})
  else Ok None.

Definition parseInformal (content : jsstring) : option InformalResponse :=
  let raw := stripFences content in
  catch (informal_try raw) (fun _ => None).

(** What [AssistantMessage] shows: the card of an explained answer, the
    card of an informal answer, or the content as it is. *)
Inductive view : Type :=
| ExplainedCard (explained : Explained)
| InformalCard (informal : InformalResponse)
| ContentText (content : jsstring).

Record rendered : Type := {
  shown : view;
  ttsText : jsstring
}.

Definition AssistantMessage (content : jsstring) (mode : Tutor.TutorMode)
  : rendered :=
  let explained :=
    match mode with Tutor.explain => parseExplained content | _ => None end in
  let informal :=
    match mode with Tutor.informal => parseInformal content | _ => None end in
  {| ttsText :=
       match explained with
       | Some e =>
           match naturalSuggestion e with
           | [] => corrected e
           | s => s
           end
       | None =>
           match informal with
           | Some i => Page.informal i
           | None => content
           end
       end;
     shown :=
       match explained with
       | Some e => ExplainedCard e
       | None =>
           match informal with
           | Some i => InformalCard i
           | None => ContentText content
           end
       end |}.

End Page.

(** ** The tutor route ([src/app/api/tutor/route.ts]) *)

Module Route.
Import JS.

(** What a [catch] clause can receive: an instance of [Error] with its
    message, or some other thrown value. *)
Inductive exception : Type :=
| ErrorInstance (message : jsstring)
| OtherThrown.

Module Message.
Inductive role_t : Type := user | assistant.
Record t : Type := { role : role_t; content : jsstring }.
End Message.

(** The body of a request, after the cast of [req.json()]. *)
Module Body.
Record t : Type := {
  language : Tutor.TutorLanguage;
  mode : Tutor.TutorMode;
  messages : list Message.t
}.
End Body.

(** [Groq.Chat.ChatCompletionMessageParam], as far as the route builds it. *)
Module Param.
Inductive role_t : Type := system | user | assistant.
Record t : Type := { role : role_t; content : jsstring }.
End Param.

(** The argument of [groq.chat.completions.create]. *)
Module Create.
Record t : Type := {
  model : jsstring;
  messages : list Param.t;
  temperature : number
}.
End Create.

(** The completion the provider answers with; [content] may be [null], and
    the route reads [message] and [content] through optional chaining. *)
Module Completion.
Record message_t : Type := { content : option jsstring }.
Record choice_t : Type := { message : option message_t }.
Record t : Type := { choices : list choice_t }.
End Completion.

(** [NextResponse.json(body, { status })]; the status is 200 by default. *)
Module Response.
Inductive body_t : Type :=
| Content (content : jsstring)
| Failure (error : jsstring).
Record t : Type := { body : body_t; status : N }.
End Response.

(** The client the SDK builds from the key. *)
Record Groq : Type := { apiKey : jsstring }.

(** The world outside the route: the provider, which answers a call made
    with a client by a completion or by a failure. *)
Definition provider : Type :=
  Groq -> Create.t -> result exception Completion.t.

(** What the route does to the outside, in order. *)
Inductive event : Type :=
| ProviderCall (client : Groq) (request : Create.t)
| ConsoleError (err : exception).

(** A computation of the route: it returns or throws, and adds to the
    events so far. *)
Definition IO (A : Type) : Type :=
  list event -> result exception A * list event.

Definition ret {A} (a : A) : IO A := fun log => (Ok a, log).

Definition throw {A} (e : exception) : IO A := fun log => (Throw e, log).

Definition iobind {A B} (m : IO A) (k : A -> IO B) : IO B :=
  fun log =>
    match m log with
    | (Ok a, log') => k a log'
    | (Throw e, log') => (Throw e, log')
    end.

Definition try_catch {A} (m : IO A) (handler : exception -> IO A) : IO A :=
  fun log =>
    match m log with
    | (Ok a, log') => (Ok a, log')
    | (Throw e, log') => handler e log'
    end.

Definition emit (ev : event) : IO unit := fun log => (Ok tt, log ++ [ev]).

Definition lift {A} (r : result exception A) : IO A := fun log => (r, log).

Notation "x <~ m ;; k" := (iobind m (fun x => k))
  (at level 61, m at next level, right associativity).

(** [!key]: the key is undefined or the empty string. *)
Definition missing (key : option jsstring) : bool :=
  match key with
  | None | Some [] => true
  | Some _ => false
  end.

Definition getGroq (GROQ_API_KEY : option jsstring) : IO Groq :=
  match GROQ_API_KEY with
  | None | Some [] =>
      throw (ErrorInstance (js "GROQ_API_KEY n" ++ [227%N] ++ js "o configurada."))
  | Some key => ret {| apiKey := key |}
  end.

Definition GROQ_MODEL : jsstring := js "llama-3.1-8b-instant".

Definition langName (lang : Tutor.TutorLanguage) : jsstring :=
  match lang with
  | Tutor.en => js "ingl" ++ [234%N] ++ js "s"
  | _ => js "alem" ++ [227%N] ++ js "o"
  end.

Definition targetLang (lang : Tutor.TutorLanguage) : jsstring :=
  match lang with
  | Tutor.en => js "English"
  | _ => js "German"
  end.

Definition systemPrompt (lang : Tutor.TutorLanguage) (mode : Tutor.TutorMode)
  : jsstring :=
  match mode with
  | Tutor.translate =>
      js "You are a translator. The user will write in any language (often Portuguese). Your ONLY task is to respond with the translation into "
      ++ targetLang lang
      ++ js ". Do not correct, explain, or add anything. Just the translation."
  | Tutor.explain =>
      js "You are a friendly " ++ langName lang
      ++ js " language tutor. The user may write in Portuguese or "
      ++ targetLang lang ++ js "." ++ newline
      ++ js "For each message you must respond with a JSON object (no markdown, no extra text) with exactly these keys:"
      ++ newline
      ++ js "- " ++ quoted "corrected"
      ++ js ": string - the corrected version of what they wrote (in "
      ++ targetLang lang ++ js ")" ++ newline
      ++ js "- " ++ quoted "translation"
      ++ js ": string - if they wrote in Portuguese, the translation to "
      ++ targetLang lang ++ js "; otherwise empty string" ++ newline
      ++ js "- " ++ quoted "explanation"
      ++ js ": string - brief explanation of what was wrong and why (in Portuguese)"
      ++ newline
      ++ js "- " ++ quoted "naturalSuggestion"
      ++ js ": string - a more natural or idiomatic version of the phrase in "
      ++ targetLang lang ++ newline
      ++ js "- " ++ quoted "score"
      ++ js ": number - a grade from 0 to 10 for their attempt" ++ newline
      ++ newline
      ++ js "Example format: {" ++ quoted "corrected" ++ js ":" ++ quoted "..."
      ++ js "," ++ quoted "translation" ++ js ":" ++ quoted "..."
      ++ js "," ++ quoted "explanation" ++ js ":" ++ quoted "..."
      ++ js "," ++ quoted "naturalSuggestion" ++ js ":" ++ quoted "..."
      ++ js "," ++ quoted "score" ++ js ":7}"
  | Tutor.correct =>
      js "The user will write in English. Your ONLY task is to respond with the corrected English text. Do not explain, translate, or add anything. Just the corrected sentence."
  | Tutor.informal =>
      js "The user will send you phrases in English. Your tasks:" ++ newline
      ++ js "1. Rewrite the phrase in the most informal, casual, day-to-day English possible. Use contractions, slang, and natural spoken English. If the phrase is already correct and casual, keep it as is."
      ++ newline
      ++ js "2. If the original phrase was already correct and natural, set "
      ++ quoted "alreadyCorrect" ++ js " to true; otherwise false." ++ newline
      ++ js "3. Provide the translation to Portuguese (Brazil)." ++ newline
      ++ newline
      ++ js "Respond with a JSON object only (no markdown, no extra text), with exactly these keys:"
      ++ newline
      ++ js "- " ++ quoted "informal"
      ++ js ": string - the phrase in casual/informal English" ++ newline
      ++ js "- " ++ quoted "alreadyCorrect"
      ++ js ": boolean - true if the original was already correct and casual"
      ++ newline
      ++ js "- " ++ quoted "translation"
      ++ js ": string - translation to Portuguese (Brazil)" ++ newline
      ++ newline
      ++ js "Example: {" ++ quoted "informal" ++ js ":"
      ++ quoted "Yeah, that's totally fine by me."
      ++ js "," ++ quoted "alreadyCorrect" ++ js ":false,"
      ++ quoted "translation" ++ js ":"
      ++ (quote ++ js "Sim, pra mim t" ++ [225%N] ++ js " tranquilo." ++ quote)
      ++ js "}"
  end.

(** [groq.chat.completions.create(request)]: one call of the provider. *)
Definition create (world : provider) (groq : Groq) (request : Create.t)
  : IO Completion.t :=
  iobind (emit (ProviderCall groq request)) (fun _ => lift (world groq request)).

Definition chat_role (r : Message.role_t) : Param.role_t :=
  match r with
  | Message.user => Param.user
  | Message.assistant => Param.assistant
  end.

(** The literal [0.3]. *)
Definition temperature_0_3 : number := finite false 3 (-1).

(** The trimmed content of the first choice; the empty string when there
    is no choice, no message or no content (optional chaining, then [??]). *)
Definition first_content (completion : Completion.t) : jsstring :=
  match Completion.choices completion with
  | [] => []
  | choice :: _ =>
      match Completion.message choice with
      | None => []
      | Some m =>
          match Completion.content m with
          | None => []
          | Some text => trim text
          end
      end
  end.

(** [POST]: [key] is [process.env.GROQ_API_KEY], [world] the provider and
    [request] the outcome of [req.json()]. *)
Definition POST (key : option jsstring) (world : provider)
  (request : result exception Body.t) : IO Response.t :=
  try_catch
    (body <~ lift request ;;
     groq <~ getGroq key ;;
     let system := systemPrompt (Body.language body) (Body.mode body) in
     let chatMessages :=
       {| Param.role := Param.system; Param.content := system |}
       :: map (fun m => {| Param.role := chat_role (Message.role m);
                           Param.content := Message.content m |})
              (Body.messages body) in
     completion <~ create world groq
       {| Create.model := GROQ_MODEL;
          Create.messages := chatMessages;
          Create.temperature := temperature_0_3 |} ;;
     let content := first_content completion in
     ret {| Response.body := Response.Content content;
            Response.status := 200 |})
    (fun err =>
       _ <~ emit (ConsoleError err) ;;
       ret {| Response.body :=
                Response.Failure
                  match err with
                  | ErrorInstance message => message
                  | OtherThrown => js "Erro ao processar."
                  end;
              Response.status := 500 |}).

(** The calls of the provider among the events. *)
Fixpoint provider_calls (log : list event) : list Create.t :=
  match log with
  | [] => []
  | ProviderCall _ r :: l => r :: provider_calls l
  | ConsoleError _ :: l => provider_calls l
  end.

End Route.

(** ** The page component ([Home] in [src/app/page.tsx]) *)

Module Home.
Import JS.

Definition language_eqb (a b : Tutor.TutorLanguage) : bool :=
  match a, b with
  | Tutor.en, Tutor.en | Tutor.de, Tutor.de => true
  | _, _ => false
  end.

Definition mode_eqb (a b : Tutor.TutorMode) : bool :=
  match a, b with
  | Tutor.translate, Tutor.translate | Tutor.explain, Tutor.explain
  | Tutor.correct, Tutor.correct | Tutor.informal, Tutor.informal => true
  | _, _ => false
  end.

(** The options of the two menus: value and label. *)
Definition LANG_OPTIONS : list (Tutor.TutorLanguage * jsstring) :=
  [(Tutor.en, js "Ingl" ++ [234%N] ++ js "s");
   (Tutor.de, js "Alem" ++ [227%N] ++ js "o")].

Definition MODE_OPTIONS : list (Tutor.TutorMode * jsstring) :=
  [(Tutor.translate, js "S" ++ [243%N] ++ js " traduzir");
   (Tutor.explain, js "Com explica" ++ [231%N; 245%N] ++ js "es");
   (Tutor.correct, js "Apenas corrigir (ingl" ++ [234%N] ++ js "s)");
   (Tutor.informal, js "Ingl" ++ [234%N] ++ js "s casual (corrige + traduz)")].

(** [OPTIONS.find((o) => o.value === v)?.label ?? fallback] *)
Definition label_of {V} (eqb : V -> V -> bool) (options : list (V * jsstring))
  (v : V) (fallback : jsstring) : jsstring :=
  match find (fun o => eqb (fst o) v) options with
  | Some o => snd o
  | None => fallback
  end.

Definition langLabel (language : Tutor.TutorLanguage) : jsstring :=
  label_of language_eqb LANG_OPTIONS language (js "Ingl" ++ [234%N] ++ js "s").

Definition modeLabel (mode : Tutor.TutorMode) : jsstring :=
  label_of mode_eqb MODE_OPTIONS mode
    (js "Com explica" ++ [231%N; 245%N] ++ js "es").

Definition titleLang (language : Tutor.TutorLanguage) : jsstring :=
  match language with
  | Tutor.de => js "Deutsch"
  | _ => js "English"
  end.

(** The state of the component (its [useState] cells); the messages have
    the type of the messages of the route's request. *)
Record state : Type := {
  language : Tutor.TutorLanguage;
  mode : Tutor.TutorMode;
  input : jsstring;
  messages : list Route.Message.t;
  loading : bool;
  langOpen : bool;
  modeOpen : bool
}.

Definition initial : state :=
  {| language := Tutor.en;
     mode := Tutor.explain;
     input := [];
     messages := [];
     loading := false;
     langOpen := false;
     modeOpen := false |}.

Definition setLanguage (v : Tutor.TutorLanguage) (st : state) : state :=
  {| language := v; mode := mode st; input := input st;
     messages := messages st; loading := loading st;
     langOpen := langOpen st; modeOpen := modeOpen st |}.

Definition setMode (v : Tutor.TutorMode) (st : state) : state :=
  {| language := language st; mode := v; input := input st;
     messages := messages st; loading := loading st;
     langOpen := langOpen st; modeOpen := modeOpen st |}.

Definition setInput (v : jsstring) (st : state) : state :=
  {| language := language st; mode := mode st; input := v;
     messages := messages st; loading := loading st;
     langOpen := langOpen st; modeOpen := modeOpen st |}.

Definition setMessages (v : list Route.Message.t) (st : state) : state :=
  {| language := language st; mode := mode st; input := input st;
     messages := v; loading := loading st;
     langOpen := langOpen st; modeOpen := modeOpen st |}.

Definition setLoading (v : bool) (st : state) : state :=
  {| language := language st; mode := mode st; input := input st;
     messages := messages st; loading := v;
     langOpen := langOpen st; modeOpen := modeOpen st |}.

Definition setLangOpen (v : bool) (st : state) : state :=
  {| language := language st; mode := mode st; input := input st;
     messages := messages st; loading := loading st;
     langOpen := v; modeOpen := modeOpen st |}.

Definition setModeOpen (v : bool) (st : state) : state :=
  {| language := language st; mode := mode st; input := input st;
     messages := messages st; loading := loading st;
     langOpen := langOpen st; modeOpen := v |}.

Definition user_turn (text : jsstring) : Route.Message.t :=
  {| Route.Message.role := Route.Message.user; Route.Message.content := text |}.

Definition assistant_turn (text : jsstring) : Route.Message.t :=
  {| Route.Message.role := Route.Message.assistant;
     Route.Message.content := text |}.

Definition goToHome (st : state) : state := setInput [] (setMessages [] st).

(** [setInput((prev) => (prev ? `${prev} ${text}` : text))] *)
Definition onVoiceResult (text : jsstring) (st : state) : state :=
  setInput (match input st with
            | [] => text
            | prev => prev ++ js " " ++ text
            end) st.

(** What [fetch] resolves to, as far as [send] reads it: [res.ok] and the
    outcome of [res.json()], whose members [content] and [error] may be
    missing. *)
Module Fetch.
Record data : Type := { content : option jsstring; error : option jsstring }.
Record response : Type := {
  ok : bool;
  json : result Route.exception data
}.
End Fetch.

(** [send], up to its [await fetch]: the new state and the body of the
    request, if one is made. [textToSend] is [None] when the argument is
    left out. *)
Definition send_start (textToSend : option jsstring) (st : state)
  : state * option Route.Body.t :=
  let text := trim (match textToSend with Some t => t | None => input st end) in
  match text with
  | [] => (st, None)
  | _ =>
      if loading st then (st, None)
      else
        let st1 :=
          match textToSend with
          | None | Some [] => setInput [] st
          | Some _ => st
          end in
        let st2 := setMessages (messages st1 ++ [user_turn text]) st1 in
        let st3 := setLoading true st2 in
        (st3,
         Some {| Route.Body.language := language st;
                 Route.Body.mode := mode st;
                 Route.Body.messages := messages st ++ [user_turn text] |})
  end.

(** The text of the assistant turn: the content of a response that is ok,
    or the message of what was thrown on the way, after [Erro: ]. *)
Definition reply_text (outcome : result Route.exception Fetch.response)
  : jsstring :=
  catch
    (res <- outcome ;;
     data <- Fetch.json res ;;
     if negb (Fetch.ok res)
     then Throw (Route.ErrorInstance
                   match Fetch.error data with
                   | None | Some [] => js "Erro na resposta"
                   | Some e => e
                   end)
     else Ok match Fetch.content data with
             | Some c => c
             | None => []
             end)
    (fun e =>
       js "Erro: " ++ match e with
                      | Route.ErrorInstance message => message
                      | Route.OtherThrown => js "Erro desconhecido"
                      end).

(** [send], from the moment its [fetch] settles: the assistant turn is
    added to the messages of that moment, and loading ends. *)
Definition send_finish (outcome : result Route.exception Fetch.response)
  (st : state) : state :=
  setLoading false
    (setMessages (messages st ++ [assistant_turn (reply_text outcome)]) st).

(** A call of [send] from its start to its end, when nothing else happens
    to the page in between. *)
Definition send (fetch : Route.Body.t -> result Route.exception Fetch.response)
  (textToSend : option jsstring) (st : state) : state :=
  match send_start textToSend st with
  | (st1, Some body) => send_finish (fetch body) st1
  | (st1, None) => st1
  end.

(** What happens to the page: a call of [send], the answer to the oldest
    request that is waiting, and the other handlers. Here each handler
    runs on a render that is up to date: the state it reads is the current
    one. [Renders] below keeps the render apart from the state. *)
Inductive action : Type :=
| Send (textToSend : option jsstring)
| Respond (outcome : result Route.exception Fetch.response)
| GoToHome
| SetInput (text : jsstring)
| VoiceResult (text : jsstring)
| ToggleLang
| ToggleMode
| PickLanguage (v : Tutor.TutorLanguage)
| PickMode (v : Tutor.TutorMode)
| ClickOutside.

(** The page with the requests that wait for an answer and all the
    requests made so far. *)
Record page : Type := {
  current : state;
  pending : list Route.Body.t;
  sent : list Route.Body.t
}.

Definition start : page := {| current := initial; pending := []; sent := [] |}.

Definition on_state (f : state -> state) (pg : page) : page :=
  {| current := f (current pg); pending := pending pg; sent := sent pg |}.

Definition step (pg : page) (a : action) : page :=
  match a with
  | Send textToSend =>
      match send_start textToSend (current pg) with
      | (st, Some body) =>
          {| current := st;
             pending := pending pg ++ [body];
             sent := sent pg ++ [body] |}
      | (st, None) => on_state (fun _ => st) pg
      end
  | Respond outcome =>
      match pending pg with
      | [] => pg
      | _ :: rest =>
          {| current := send_finish outcome (current pg);
             pending := rest;
             sent := sent pg |}
      end
  | GoToHome => on_state goToHome pg
  | SetInput text => on_state (setInput text) pg
  | VoiceResult text => on_state (onVoiceResult text) pg
  | ToggleLang =>
      on_state (fun st => setLangOpen (negb (langOpen st)) (setModeOpen false st)) pg
  | ToggleMode =>
      on_state (fun st => setModeOpen (negb (modeOpen st)) (setLangOpen false st)) pg
  | PickLanguage v => on_state (fun st => setLangOpen false (setLanguage v st)) pg
  | PickMode v => on_state (fun st => setModeOpen false (setMode v st)) pg
  | ClickOutside =>
      on_state (fun st => setModeOpen false (setLangOpen false st)) pg
  end.

Definition run (pg : page) (actions : list action) : page :=
  fold_left step actions pg.

(** The messages are turns of the user and of the assistant in
    alternation, the user first, every turn of the user a text that is
    trimmed and not empty. *)
Fixpoint exchanges (ms : list Route.Message.t) : bool :=
  match ms with
  | [] => true
  | u :: r =>
      match r with
      | [] => false
      | a :: r' =>
          match Route.Message.role u, Route.Message.role a with
          | Route.Message.user, Route.Message.assistant =>
              str_eqb (trim (Route.Message.content u)) (Route.Message.content u)
              && negb (str_eqb (Route.Message.content u) [])
              && exchanges r'
          | _, _ => false
          end
      end
  end.

(** No [GoToHome] among the actions while a request waits. *)
Fixpoint home_at_rest (pg : page) (actions : list action) : bool :=
  match actions with
  | [] => true
  | a :: r =>
      match a with
      | GoToHome => negb (loading (current pg))
      | _ => true
      end && home_at_rest (step pg a) r
  end.

(** The request of the page reaches the route and the answer of the route
    comes back: the body arrives as it was sent (it is written and read as
    JSON), [res.ok] is a status from 200 to 299, and [res.json()] is the
    body of the response. *)
Definition route_fetch (key : option jsstring) (world : Route.provider)
  (body : Route.Body.t) : result Route.exception Fetch.response :=
  match fst (Route.POST key world (Ok body) []) with
  | Ok resp =>
      Ok {| Fetch.ok := ((200 <=? Route.Response.status resp)
                         && (Route.Response.status resp <=? 299))%N;
            Fetch.json :=
              Ok match Route.Response.body resp with
                 | Route.Response.Content c =>
                     {| Fetch.content := Some c; Fetch.error := None |}
                 | Route.Response.Failure e =>
                     {| Fetch.content := None; Fetch.error := Some e |}
                 end |}
  | Throw e => Throw e
  end.

End Home.

(** ** The page and its renders *)

Module Renders.
Import JS.

(** A handler is made by a render and reads the state of that render;
    what it sets goes to the state of the moment. [send] reads the input,
    the loading flag, the language, the mode and the messages of its
    render; the user turn is added by [setMessages((prev) => ...)] to the
    messages of the moment. *)
Definition send_start_from (textToSend : option jsstring)
  (seen st : Home.state) : Home.state * option Route.Body.t :=
  let text :=
    trim (match textToSend with Some t => t | None => Home.input seen end) in
  match text with
  | [] => (st, None)
  | _ =>
      if Home.loading seen then (st, None)
      else
        let st1 :=
          match textToSend with
          | None | Some [] => Home.setInput [] st
          | Some _ => st
          end in
        let st2 :=
          Home.setMessages (Home.messages st1 ++ [Home.user_turn text]) st1 in
        let st3 := Home.setLoading true st2 in
        (st3,
         Some {| Route.Body.language := Home.language seen;
                 Route.Body.mode := Home.mode seen;
                 Route.Body.messages :=
                   Home.messages seen ++ [Home.user_turn text] |})
  end.

(** A render of the component, or one of the things that happen to it. *)
Inductive event : Type :=
| Render
| Handle (a : Home.action).

(** The page with the state its handlers were made from. *)
Record page : Type := {
  seen : Home.state;
  now : Home.page
}.

Definition start : page := {| seen := Home.initial; now := Home.start |}.

(** [send] and the two buttons that open a menu read the render; the
    other handlers only set, or update what is there at the moment. *)
Definition handle (seen : Home.state) (pg : Home.page) (a : Home.action)
  : Home.page :=
  match a with
  | Home.Send textToSend =>
      match send_start_from textToSend seen (Home.current pg) with
      | (st, Some body) =>
          {| Home.current := st;
             Home.pending := Home.pending pg ++ [body];
             Home.sent := Home.sent pg ++ [body] |}
      | (st, None) => Home.on_state (fun _ => st) pg
      end
  | Home.ToggleLang =>
      Home.on_state
        (fun st => Home.setLangOpen (negb (Home.langOpen seen))
                     (Home.setModeOpen false st)) pg
  | Home.ToggleMode =>
      Home.on_state
        (fun st => Home.setModeOpen (negb (Home.modeOpen seen))
                     (Home.setLangOpen false st)) pg
  | _ => Home.step pg a
  end.

Definition step (pg : page) (e : event) : page :=
  match e with
  | Render => {| seen := Home.current (now pg); now := now pg |}
  | Handle a => {| seen := seen pg; now := handle (seen pg) (now pg) a |}
  end.

Definition run (pg : page) (events : list event) : page :=
  fold_left step events pg.

(** Every call of [send] comes right after a render; [fresh] says that
    the last event was a render. *)
Fixpoint sends_after_render (fresh : bool) (events : list event) : bool :=
  match events with
  | [] => true
  | Render :: r => sends_after_render true r
  | Handle (Home.Send _) :: r => fresh && sends_after_render false r
  | Handle _ :: r => sends_after_render false r
  end.

(** No [GoToHome] among the events while a request waits. *)
Fixpoint home_at_rest (pg : page) (events : list event) : bool :=
  match events with
  | [] => true
  | e :: r =>
      match e with
      | Handle Home.GoToHome => negb (Home.loading (Home.current (now pg)))
      | _ => true
      end && home_at_rest (step pg e) r
  end.

End Renders.

(** ** Reading aloud ([useTTS] in [src/app/page.tsx]) *)

Module Speech.
Import JS.

Module Voice.
Record t : Type := { name : jsstring; lang : jsstring }.
End Voice.

(** The [SpeechSynthesisUtterance] that [speak] builds. *)
Module Utterance.
Record t : Type := {
  text : jsstring;
  lang : jsstring;
  rate : number;
  pitch : number;
  voice : option Voice.t
}.
End Utterance.

(** What [speak] does to [window.speechSynthesis]. *)
Inductive event : Type :=
| Cancel
| Speak (u : Utterance.t).

(** The character a pattern with the flag [i] (and without [u]) compares:
    a small ASCII letter is its capital; a character outside ASCII is never
    taken to an ASCII one. *)
Definition canonicalize (c : char) : char :=
  if ((97 <=? c) && (c <=? 122))%N then (c - 32)%N else c.

Fixpoint starts_with_ci (p s : jsstring) : bool :=
  match p, s with
  | [], _ => true
  | x :: p', y :: s' =>
      (canonicalize x =? canonicalize y)%N && starts_with_ci p' s'
  | _ :: _, [] => false
  end.

Definition keywords : list jsstring :=
  [js "google"; js "natural"; js "premium"; js "samantha"; js "daniel";
   js "karen"; js "moira"; js "luciana"; js "cloud"; js "online"].

(** [naturalKeywords.test(name)]: one of the words occurs in the name,
    whatever the case of its letters. *)
Fixpoint naturalKeywords_test (name : jsstring) : bool :=
  existsb (fun k => starts_with_ci k name) keywords
  || match name with
     | [] => false
     | _ :: r => naturalKeywords_test r
     end.

(** [s.replace(/_/g, "-")], the replacement being a hyphen. *)
Definition underscores_to_hyphens (s : jsstring) : jsstring :=
  map (fun c => if (c =? 95)%N then 45%N else c) s.

Section Speak.

(** [String.prototype.toLowerCase], the case conversion of Unicode, is
    not modelled: it is a parameter of what follows. *)
Variable toLowerCase : jsstring -> jsstring.

Definition is_de (lang : jsstring) : bool := str_eqb lang (js "de").

Definition langCode (lang : jsstring) : jsstring :=
  if is_de lang then js "de-DE" else js "en-US".

Definition langPrefix (lang : jsstring) : jsstring :=
  if is_de lang then js "de" else js "en".

(** [match] of the source: the voice is of the language. *)
Definition matches (lang : jsstring) (v : Voice.t) : bool :=
  starts_with (langPrefix lang)
    (toLowerCase (underscores_to_hyphens (Voice.lang v))).

(** The voice [speak] takes: among the voices of the language, the first
    with a natural name, else the first. *)
Definition choose_voice (voices : list Voice.t) (lang : jsstring)
  : option Voice.t :=
  let byLang := filter (matches lang) voices in
  match find (fun v => naturalKeywords_test (Voice.name v)) byLang with
  | Some v => Some v
  | None =>
      match byLang with
      | v :: _ => Some v
      | [] => None
      end
  end.

(** [speak(text, lang)] in a browser: [cached] are the voices the hook has
    kept, [fresh] those [getVoices()] returns now. *)
Definition speak (cached fresh : list Voice.t) (text lang : jsstring)
  : list event :=
  match trim text with
  | [] => []
  | trimmed =>
      let voices := match cached with [] => fresh | _ => cached end in
      [Cancel;
       Speak {| Utterance.text := trimmed;
                Utterance.lang := langCode lang;
                Utterance.rate := finite false 92 (-2);
                Utterance.pitch := of_N 1;
                Utterance.voice := choose_voice voices lang |}]
  end.

End Speak.

(** The string of a language. *)
Definition language_string (l : Tutor.TutorLanguage) : jsstring :=
  match l with
  | Tutor.en => js "en"
  | Tutor.de => js "de"
  end.

(** The button of [AssistantMessage] that reads the answer aloud: the
    arguments it calls [onSpeak] with, or [None] when the button is not
    shown. *)
Definition listen (content : jsstring) (mode : Tutor.TutorMode)
  (lang : jsstring) : option (jsstring * jsstring) :=
  let r := Page.AssistantMessage content mode in
  match Page.shown r with
  | Page.ExplainedCard _ =>
      match Page.ttsText r with
      | [] => None
      | t => Some (t, lang)
      end
  | Page.InformalCard i =>
      match Page.informal i with
      | [] => None
      | t => Some (t, js "en")
      end
  | Page.ContentText c =>
      match c with
      | [] => None
      | t => Some (t, lang)
      end
  end.

End Speech.

(** ** The call the specification describes *)

Module Spec.
Import JS.

(** The outbound call of the specification: the fixed model identifier,
    the sampling temperature 0.3, and the message list made of the
    directive for the language and the mode followed by the history, each
    turn with its speaker and its text. *)
Definition outbound_call (body : Route.Body.t) : Route.Create.t :=
  {| Route.Create.model := js "llama-3.1-8b-instant";
     Route.Create.messages :=
       {| Route.Param.role := Route.Param.system;
          Route.Param.content :=
            Route.systemPrompt (Route.Body.language body) (Route.Body.mode body) |}
       :: map (fun turn =>
                 {| Route.Param.role :=
                      match Route.Message.role turn with
                      | Route.Message.user => Route.Param.user
                      | Route.Message.assistant => Route.Param.assistant
                      end;
                    Route.Param.content := Route.Message.content turn |})
              (Route.Body.messages body);
     Route.Create.temperature := Finite false 3 (-1) |}.

(** The single error string of a failure. *)
Definition error_string (err : Route.exception) : jsstring :=
  match err with
  | Route.ErrorInstance message => message
  | Route.OtherThrown => js "Erro ao processar."
  end.

End Spec.

(** ** Provider texts and requests used below *)

Module Examples.
Import JS.

Definition member (k : string) (v : jsstring) : jsstring :=
  quoted k ++ js ":" ++ v.

Fixpoint members (l : list jsstring) : jsstring :=
  match l with
  | [] => []
  | [m] => m
  | m :: r => m ++ js "," ++ members r
  end.

Definition object (l : list jsstring) : jsstring :=
  js "{" ++ members l ++ js "}".

(** The provider text of scenario B: the five members between code
    fences, [translation] the empty string and [score] 6. *)
Definition scenario_B : jsstring :=
  fence ++ js "json" ++ newline
  ++ object [member "corrected" (quoted "I went...");
             member "translation" (quote ++ quote);
             member "explanation" (quoted "past tense");
             member "naturalSuggestion" (quoted "I went to school yesterday.");
             member "score" (js "6")]
  ++ newline ++ fence.

(** An explained answer with the given text for its score. *)
Definition explained_with_score (score : jsstring) : jsstring :=
  object [member "corrected" (quoted "I went to school yesterday.");
          member "translation" (quote ++ quote);
          member "explanation" (quoted "past tense");
          member "naturalSuggestion" (quoted "I went to school yesterday.");
          member "score" score].

(** An explained answer without the member [translation]. *)
Definition explained_without_translation : jsstring :=
  object [member "corrected" (quoted "I went to school yesterday.");
          member "explanation" (quoted "past tense");
          member "naturalSuggestion" (quoted "I went to school yesterday.");
          member "score" (js "6")].

Definition explained_nulls : jsstring :=
  object [member "corrected" (js "null");
          member "translation" (js "null");
          member "explanation" (js "null");
          member "naturalSuggestion" (js "null");
          member "score" (js "null")].

Definition informal_nulls : jsstring :=
  object [member "informal" (js "null");
          member "alreadyCorrect" (js "null");
          member "translation" (js "null")].

(** The members [JSON.parse] finds in a text, when it is an object. *)
Definition members_of (text : jsstring) : list (jsstring * json) :=
  match JSON_parse (Page.stripFences text) with
  | Ok (JObject ms) => ms
  | _ => []
  end.

Definition scenario_B_members : list (jsstring * json) :=
  Eval vm_compute in members_of scenario_B.

Definition explained_nulls_members : list (jsstring * json) :=
  Eval vm_compute in members_of explained_nulls.

Definition informal_nulls_members : list (jsstring * json) :=
  Eval vm_compute in members_of informal_nulls.

(** Scenario A: one user turn, mode correct. *)
Definition scenario_A : Route.Body.t :=
  {| Route.Body.language := Tutor.en;
     Route.Body.mode := Tutor.correct;
     Route.Body.messages :=
       [{| Route.Message.role := Route.Message.user;
           Route.Message.content := js "I go to school yesterday" |}] |}.

(** Scenario C: a provider text that is not JSON. *)
Definition scenario_C : jsstring := js "{corrected: I went to school".

(** The same answer between code fences. *)
Definition fenced_without_translation : jsstring :=
  fence ++ js "json" ++ newline ++ explained_without_translation ++ newline
  ++ fence.

(** An informal answer. *)
Definition informal_answer : jsstring :=
  object [member "informal" (quoted "Yeah, that works.");
          member "alreadyCorrect" (js "false");
          member "translation" (quoted "Sim, funciona.")].

Definition informal_answer_members : list (jsstring * json) :=
  Eval vm_compute in members_of informal_answer.

(** The object of scenario B with one more member. *)
Definition scenario_B_noted : jsstring :=
  object [member "corrected" (quoted "I went...");
          member "note" (js "[1, 2]");
          member "translation" (quote ++ quote);
          member "explanation" (quoted "past tense");
          member "naturalSuggestion" (quoted "I went to school yesterday.");
          member "score" (js "6")].

Definition scenario_B_noted_members : list (jsstring * json) :=
  Eval vm_compute in members_of scenario_B_noted.

(** Two questions, the first one answered. *)
Definition two_questions : list Home.action :=
  [Home.SetInput (js "I go to school yesterday");
   Home.Send None;
   Home.Respond
     (Ok {| Home.Fetch.ok := true;
            Home.Fetch.json :=
              Ok {| Home.Fetch.content := Some (js "I went to school yesterday.");
                    Home.Fetch.error := None |} |});
   Home.VoiceResult (js "and today");
   Home.Send None].

(** The voices of a browser. *)
Definition voices : list Speech.Voice.t :=
  [{| Speech.Voice.name := js "Anna"; Speech.Voice.lang := js "de_DE" |};
   {| Speech.Voice.name := js "Alex"; Speech.Voice.lang := js "en-US" |};
   {| Speech.Voice.name := js "Google US English";
      Speech.Voice.lang := js "en-US" |}].

(** The same, with the renders in between. *)
Definition two_questions_rendered : list Renders.event :=
  [Renders.Handle (Home.SetInput (js "I go to school yesterday"));
   Renders.Render;
   Renders.Handle (Home.Send None);
   Renders.Render;
   Renders.Handle
     (Home.Respond
        (Ok {| Home.Fetch.ok := true;
               Home.Fetch.json :=
                 Ok {| Home.Fetch.content :=
                         Some (js "I went to school yesterday.");
                       Home.Fetch.error := None |} |}));
   Renders.Render;
   Renders.Handle (Home.VoiceResult (js "and today"));
   Renders.Render;
   Renders.Handle (Home.Send None)].

(** The small letter of an ASCII capital, for the names of languages. *)
Definition ascii_lower (s : jsstring) : jsstring :=
  map (fun c => if ((65 <=? c) && (c <=? 90))%N then (c + 32)%N else c) s.

(** A provider that answers every call with one choice. *)
Definition answering (text : jsstring) : Route.provider :=
  fun _ _ =>
    Ok {| Route.Completion.choices :=
            [{| Route.Completion.message :=
                  Some {| Route.Completion.content := Some text |} |}] |}.

(** A provider that fails every call. *)
Definition failing (message : jsstring) : Route.provider :=
  fun _ _ => Throw (Route.ErrorInstance message).

End Examples.

(** ** What holds of the page at every moment *)

Module Invariants.
Import JS.

(** The messages of a request: exchanges so far, then the new turn of the
    user, a text that is trimmed and not empty. *)
Definition request_shape (ms : list Route.Message.t) : Prop :=
  exists history text,
    ms = history ++ [Home.user_turn text]
    /\ Home.exchanges history = true
    /\ trim text = text
    /\ text <> [].

(** Nothing is loading and no request waits, or one request waits and the
    page is loading. *)
Definition one_in_flight (pg : Home.page) : Prop :=
  (Home.loading (Home.current pg) = false /\ Home.pending pg = [])
  \/ (Home.loading (Home.current pg) = true
      /\ exists body, Home.pending pg = [body]).

(** At rest the messages are exchanges; while a request waits they have
    the shape of a request; and every request made had that shape. *)
Definition conversation (pg : Home.page) : Prop :=
  (forall body, In body (Home.sent pg) ->
                request_shape (Route.Body.messages body))
  /\ (Home.loading (Home.current pg) = false ->
      Home.exchanges (Home.messages (Home.current pg)) = true)
  /\ (Home.loading (Home.current pg) = true ->
      request_shape (Home.messages (Home.current pg))).

End Invariants.

(** * Properties *)

Import JS.

#[local] Hint Constructors Subseq : core.

(** ** The runtime on small inputs *)

Example JSON_parse_array :
  JSON_parse (js "[1, 2.50, true, null, [], {}]")
  = Ok (JArray [JNumber (of_N 1); JNumber (Finite false 25 (-1)); JBool true;
                JNull; JArray []; JObject []]).
Proof. reflexivity. Qed.

Example JSON_parse_later_member_wins :
  option_map (obj_get (js "a"))
    (match JSON_parse (Examples.object [Examples.member "a" (js "1");
                                        Examples.member "a" (js "2")]) with
     | Ok (JObject ms) => Some ms
     | _ => None
     end)
  = Some (Some (JNumber (of_N 2))).
Proof. reflexivity. Qed.

Example JSON_parse_rejects :
  map JSON_parse [js "[1,]"; js "{} x"; js "01"; js "tru"; js "[1 2]"; []]
  = repeat (Throw SyntaxError) 6.
Proof. reflexivity. Qed.

Example StringToNumber_values :
  map StringToNumber [js " 7 "; js "7.0"; js "0x1F"; []; js "seven"; js "7px"]
  = [of_N 7; of_N 7; of_N 31; of_N 0; NaN; NaN].
Proof. reflexivity. Qed.

Example number_toString_values :
  map number_toString
    [of_N 7; Finite false 5 (-1); Finite true 15 2; Finite false 1 21;
     Finite false 1 (-7); NaN]
  = [js "7"; js "0.5"; js "-1500"; js "1e+21"; js "1e-7"; js "NaN"].
Proof. reflexivity. Qed.

Example ToString_array :
  ToString (JArray [JNumber (of_N 1); JArray [JNull; JNumber (of_N 2)];
                    JBool true])
  = Ok (js "1,,2,true").
Proof. reflexivity. Qed.

(** A member that is an object with a member [toString] of its own makes
    [String] throw; the [catch] of the decoder turns that into [null]. *)
Example parseExplained_TypeError :
  Page.explained_try
    (Examples.object
       [Examples.member "corrected"
          (Examples.object [Examples.member "toString" (js "1")]);
        Examples.member "explanation" (quoted "x");
        Examples.member "naturalSuggestion" (quoted "y");
        Examples.member "score" (js "5")])
  = Throw TypeError
  /\ Page.parseExplained
       (Examples.object
          [Examples.member "corrected"
             (Examples.object [Examples.member "toString" (js "1")]);
           Examples.member "explanation" (quoted "x");
           Examples.member "naturalSuggestion" (quoted "y");
           Examples.member "score" (js "5")])
     = None.
Proof. split; reflexivity. Qed.

(** ** Strings *)

Section Strings.

Variable p : char -> bool.

Lemma dropWhile_idem s : dropWhile p (dropWhile p s) = dropWhile p s.
Proof.
  induction s as [|c r IH]; simpl; [reflexivity|].
  destruct (p c) eqn:E; [exact IH|]. simpl. now rewrite E.
Qed.

Lemma take_drop_while s : takeWhile p s ++ dropWhile p s = s.
Proof.
  induction s as [|c r IH]; simpl; [reflexivity|].
  destruct (p c); simpl; [now rewrite IH | reflexivity].
Qed.

(** Once the front of [s] is clean, it stays clean when characters are
    dropped at the end. *)
Lemma dropWhile_fixed_prefix a b :
  dropWhile p (a ++ b) = a ++ b -> dropWhile p a = a.
Proof.
  destruct a as [|c a]; simpl; [reflexivity|].
  destruct (p c) eqn:E; [|reflexivity].
  intros H. exfalso.
  assert (L : length (dropWhile p (a ++ b)) <= length (a ++ b)).
  { rewrite <- (take_drop_while (a ++ b)) at 2. rewrite length_app. lia. }
  rewrite H in L. simpl in L. lia.
Qed.

Lemma Subseq_refl s : Subseq s s.
Proof. induction s; auto. Qed.

Lemma Subseq_dropWhile s : Subseq (dropWhile p s) s.
Proof.
  induction s as [|c r IH]; simpl; auto.
  destruct (p c); auto using Subseq_refl.
Qed.

End Strings.

Lemma Subseq_trans a b c : Subseq a b -> Subseq b c -> Subseq a c.
Proof.
  intros Hab Hbc. revert a Hab.
  induction Hbc as [|x b c Hbc IH|x b c Hbc IH]; intros a Hab; auto.
  inversion Hab; subst; auto.
Qed.

Lemma Subseq_app a a' b b' : Subseq a a' -> Subseq b b' -> Subseq (a ++ b) (a' ++ b').
Proof. induction 1; simpl; auto. Qed.

Lemma Subseq_rev a b : Subseq a b -> Subseq (rev a) (rev b).
Proof.
  induction 1; simpl; auto.
  - apply Subseq_app; auto.
  - rewrite <- (app_nil_r (rev a)). apply Subseq_app; auto.
Qed.

Lemma trimEnd_prefix s : exists t, s = trimEnd s ++ t.
Proof.
  unfold trimEnd. exists (rev (takeWhile isWhiteSpace (rev s))).
  rewrite <- rev_app_distr, take_drop_while. now rewrite rev_involutive.
Qed.

Lemma trimEnd_idem s : trimEnd (trimEnd s) = trimEnd s.
Proof. unfold trimEnd. now rewrite rev_involutive, dropWhile_idem. Qed.

Lemma trim_idem s : trim (trim s) = trim s.
Proof.
  unfold trim.
  assert (H : trimStart (trimEnd (trimStart s)) = trimEnd (trimStart s)).
  { destruct (trimEnd_prefix (trimStart s)) as [t Ht].
    apply dropWhile_fixed_prefix with (b := t). rewrite <- Ht.
    apply dropWhile_idem. }
  rewrite H. apply trimEnd_idem.
Qed.

Lemma Subseq_trim s : Subseq (trim s) s.
Proof.
  unfold trim, trimEnd, trimStart.
  apply Subseq_trans with (dropWhile isWhiteSpace s); [|apply Subseq_dropWhile].
  rewrite <- (rev_involutive (dropWhile isWhiteSpace s)) at 2.
  apply Subseq_rev, Subseq_dropWhile.
Qed.

(** ** The code-fence pattern *)

Lemma Subseq_replace_from skip s : Subseq (replace_from skip s) s.
Proof.
  revert skip. induction s as [|c r IH]; intros skip; simpl; auto.
  destruct skip; auto. destruct (match_fence (c :: r)); auto.
Qed.

Lemma has_fence_cons c s : has_fence s = true -> has_fence (c :: s) = true.
Proof. intros H. simpl. rewrite H. apply orb_true_r. Qed.

Lemma has_fence_dropWhile p s :
  has_fence (dropWhile p s) = true -> has_fence s = true.
Proof.
  induction s as [|c r IH]; simpl dropWhile; auto.
  destruct (p c); auto. intros H. apply has_fence_cons; auto.
Qed.

Lemma starts_with_has_fence s : starts_with fence s = true -> has_fence s = true.
Proof. intros H. destruct s; cbn [has_fence]; rewrite H; reflexivity. Qed.

Lemma strip_prefix_app a b s r :
  strip_prefix (a ++ b) s = Some r -> exists t, strip_prefix a s = Some t.
Proof.
  revert s. induction a as [|x a IH]; intros s; simpl; eauto.
  destruct s as [|y s]; [discriminate|].
  destruct (char_eqb x y); [eauto | discriminate].
Qed.

(** Without a code fence in the text the pattern matches nowhere. *)
Lemma match_fence_none s : has_fence s = false -> match_fence s = None.
Proof.
  intros H. unfold match_fence.
  destruct (strip_prefix (fence ++ js "jso") s) as [r|] eqn:E.
  - apply strip_prefix_app in E as [t Ht].
    assert (F : starts_with fence s = true) by (unfold starts_with; now rewrite Ht).
    apply starts_with_has_fence in F. congruence.
  - destruct (starts_with fence (dropWhile isWhiteSpace s)) eqn:F; auto.
    apply starts_with_has_fence, has_fence_dropWhile in F. congruence.
Qed.

Lemma replace_fences_no_fence s : has_fence s = false -> replace_fences s = s.
Proof.
  unfold replace_fences. induction s as [|c r IH]; intros H; [reflexivity|].
  cbn [replace_from]. rewrite (match_fence_none _ H).
  f_equal. apply IH. simpl in H. apply orb_false_iff in H. tauto.
Qed.

(** The scan with its counter is the loop of [replace]: after a match of
    [n] code units it goes on [n] code units further, and where nothing
    matches it keeps the character and goes on with the next. *)
Lemma replace_from_skipn skip s :
  replace_from skip s = replace_fences (skipn skip s).
Proof.
  revert skip. induction s as [|c r IH]; intros [|k]; try reflexivity.
  cbn [replace_from skipn]. apply IH.
Qed.

Lemma strip_prefix_length p s r :
  strip_prefix p s = Some r -> length s = length p + length r.
Proof.
  revert s. induction p as [|x p IH]; intros s; simpl.
  - now intros [= ->].
  - destruct s as [|y s]; [discriminate|].
    destruct (char_eqb x y); [|discriminate].
    intros H. simpl. now rewrite (IH s H).
Qed.

Lemma dropWhile_length p s : length (dropWhile p s) <= length s.
Proof.
  induction s as [|c r IH]; simpl; [lia|]. destruct (p c); simpl; lia.
Qed.

(** A match is never empty: it holds three backticks. *)
Lemma match_fence_min s n : match_fence s = Some n -> 3 <= n.
Proof.
  unfold match_fence.
  destruct (strip_prefix (fence ++ js "jso") s) as [r|] eqn:E.
  - apply strip_prefix_length in E.
    change (length (fence ++ js "jso")) with 6 in E.
    cbv zeta. set (d := dropWhile isWhiteSpace _).
    assert (L : length d <= length r).
    { subst d. destruct (strip_prefix (js "n") r) as [t|] eqn:F.
      - apply strip_prefix_length in F.
        pose proof (dropWhile_length isWhiteSpace t). lia.
      - apply dropWhile_length. }
    clearbody d. intros [= <-]. lia.
  - destruct (starts_with fence (dropWhile isWhiteSpace s)); [|discriminate].
    intros [= <-]. lia.
Qed.

Lemma replace_fences_match s n :
  match_fence s = Some n -> replace_fences s = replace_fences (skipn n s).
Proof.
  intros H. pose proof (match_fence_min s n H) as L.
  destruct n as [|n]; [lia|].
  destruct s as [|c r].
  - reflexivity.
  - unfold replace_fences at 1. cbn [replace_from]. rewrite H.
    cbn [pred skipn]. apply replace_from_skipn.
Qed.

Lemma replace_fences_no_match c r :
  match_fence (c :: r) = None ->
  replace_fences (c :: r) = c :: replace_fences r.
Proof. unfold replace_fences. cbn [replace_from]. now intros ->. Qed.

Example replace_fences_scenario_B :
  Page.stripFences Examples.scenario_B
  = Examples.object
      [Examples.member "corrected" (quoted "I went...");
       Examples.member "translation" (quote ++ quote);
       Examples.member "explanation" (quoted "past tense");
       Examples.member "naturalSuggestion" (quoted "I went to school yesterday.");
       Examples.member "score" (js "6")].
Proof. reflexivity. Qed.

Example replace_fences_language_tag :
  Page.stripFences (js "```javascript
x = 1
```")
  = js "javascript
x = 1".
Proof. reflexivity. Qed.

(** ** Stripping code fences *)

(** The pattern is global: a fence in the middle of the text goes too, so
    the stripped text need not be a contiguous part of the content. *)
Lemma stripFences_removes_interior_fence :
  ~ exists p q, js "a```b" = p ++ Page.stripFences (js "a```b") ++ q.
Proof.
  intros (p & q & H). vm_compute in H.
  do 5 (destruct p as [|? p]; [discriminate H|]; injection H as _ H).
  destruct p; discriminate H.
Qed.

(** Two backticks, a space and four backticks: the first pass leaves a code
    fence, which the second pass removes. *)
Lemma stripFences_twice_differs :
  Page.stripFences (Page.stripFences (js "`` ````"))
  <> Page.stripFences (js "`` ````").
Proof. vm_compute. discriminate. Qed.

(** C9, as the code has it: when the stripped text holds no code fence,
    stripping it again changes nothing. *)
Theorem stripFences_idempotent_without_fence (content : jsstring) :
  has_fence (Page.stripFences content) = false ->
  Page.stripFences (Page.stripFences content) = Page.stripFences content.
Proof.
  intros H. unfold Page.stripFences at 1.
  rewrite (replace_fences_no_fence _ H).
  unfold Page.stripFences. apply trim_idem.
Qed.

Lemma stripFences_idempotent_without_fence_witness :
  Page.stripFences (Page.stripFences (js "```json
{}
```"))
  = Page.stripFences (js "```json
{}
```").
Proof.
  apply (stripFences_idempotent_without_fence (js "```json
{}
```")).
  reflexivity.
Defined.

(** ** The component *)

(** In a raw-text mode the content is shown as it is, code fence included. *)
Lemma AssistantMessage_keeps_fence :
  Page.shown (Page.AssistantMessage (js "```hi```") Tutor.translate)
  <> Page.ContentText (Page.stripFences (js "```hi```")).
Proof. vm_compute. discriminate. Qed.

(** C2, as the code has it: in the modes translate and correct the
    component shows (and reads aloud) the content as it is, without
    stripping; this is the stripped text when the content holds no code
    fence and no white space around it. *)
Theorem AssistantMessage_raw_text (content : jsstring) (mode : Tutor.TutorMode) :
  mode = Tutor.translate \/ mode = Tutor.correct ->
  Page.AssistantMessage content mode
  = {| Page.shown := Page.ContentText content; Page.ttsText := content |}
  /\ (has_fence content = false -> trim content = content ->
      Page.shown (Page.AssistantMessage content mode)
      = Page.ContentText (Page.stripFences content)).
Proof.
  intros [-> | ->]; (split; [reflexivity|]); intros F T; cbn;
    unfold Page.stripFences; now rewrite replace_fences_no_fence, T.
Qed.

Lemma AssistantMessage_raw_text_witness :
  Page.AssistantMessage (js "I went to school yesterday.") Tutor.correct
  = {| Page.shown := Page.ContentText (js "I went to school yesterday.");
       Page.ttsText := js "I went to school yesterday." |}
  /\ Page.shown (Page.AssistantMessage (js "I went to school yesterday.") Tutor.correct)
     = Page.ContentText (Page.stripFences (js "I went to school yesterday.")).
Proof.
  destruct (AssistantMessage_raw_text (js "I went to school yesterday.")
              Tutor.correct (or_intror eq_refl)) as [H1 H2].
  split; [exact H1 | apply H2; reflexivity].
Defined.

(** ** The decoders *)

Section Decoders.

Variable content : jsstring.

Lemma explained_try_object ms :
  JSON_parse (Page.stripFences content) = Ok (JObject ms) ->
  Page.explained_try (Page.stripFences content)
  = if obj_has (js "corrected") ms && obj_has (js "explanation") ms
       && obj_has (js "naturalSuggestion") ms && obj_has (js "score") ms
    then
      c <- Page.string_field (js "corrected") (JObject ms) ;;
      t <- Page.string_field (js "translation") (JObject ms) ;;
      e <- Page.string_field (js "explanation") (JObject ms) ;;
      n <- Page.string_field (js "naturalSuggestion") (JObject ms) ;;
      s <- Number_of (obj_get (js "score") ms) ;;
      Ok (Some {| Page.corrected := c;
                  Page.translation := t;
                  Page.explanation := e;
                  Page.naturalSuggestion := n;
                  Page.score := s |})
    else Ok None.
Proof. intros H. unfold Page.explained_try. rewrite H. reflexivity. Qed.

Lemma informal_try_object ms :
  JSON_parse (Page.stripFences content) = Ok (JObject ms) ->
  Page.informal_try (Page.stripFences content)
  = if obj_has (js "informal") ms && obj_has (js "alreadyCorrect") ms
       && obj_has (js "translation") ms
    then
      i <- Page.string_field (js "informal") (JObject ms) ;;
      t <- Page.string_field (js "translation") (JObject ms) ;;
      Ok (Some {| Page.informal := i;
                  Page.alreadyCorrect :=
                    Boolean_of (obj_get (js "alreadyCorrect") ms);
                  Page.informalTranslation := t |})
    else Ok None.
Proof. intros H. unfold Page.informal_try. rewrite H. reflexivity. Qed.

Lemma parseExplained_missing_key ms k :
  JSON_parse (Page.stripFences content) = Ok (JObject ms) ->
  In k [js "corrected"; js "explanation"; js "naturalSuggestion"; js "score"] ->
  obj_has k ms = false ->
  Page.parseExplained content = None.
Proof.
  intros P K H. unfold Page.parseExplained. cbv zeta.
  rewrite (explained_try_object ms P).
  destruct K as [<- | [<- | [<- | [<- | []]]]]; rewrite H;
    rewrite ?andb_false_r; reflexivity.
Qed.

Lemma parseInformal_missing_key ms k :
  JSON_parse (Page.stripFences content) = Ok (JObject ms) ->
  In k [js "informal"; js "alreadyCorrect"; js "translation"] ->
  obj_has k ms = false ->
  Page.parseInformal content = None.
Proof.
  intros P K H. unfold Page.parseInformal. cbv zeta.
  rewrite (informal_try_object ms P).
  destruct K as [<- | [<- | [<- | []]]]; rewrite H;
    rewrite ?andb_false_r; reflexivity.
Qed.

Lemma explained_try_not_object o :
  JSON_parse (Page.stripFences content) = Ok o ->
  (forall ms, o <> JObject ms) ->
  Page.explained_try (Page.stripFences content) = Ok None.
Proof.
  intros P N. unfold Page.explained_try. rewrite P.
  destruct o as [| | | | |ms]; try reflexivity; try (now elim (N ms));
    cbv [bind typeof_object]; destruct (ToBoolean _); reflexivity.
Qed.

Lemma informal_try_not_object o :
  JSON_parse (Page.stripFences content) = Ok o ->
  (forall ms, o <> JObject ms) ->
  Page.informal_try (Page.stripFences content) = Ok None.
Proof.
  intros P N. unfold Page.informal_try. rewrite P.
  destruct o as [| | | | |ms]; try reflexivity; try (now elim (N ms));
    cbv [bind typeof_object]; destruct (ToBoolean _); reflexivity.
Qed.

End Decoders.

(** An object without the member [translation] is decoded all the same:
    the guard of [parseExplained] asks for the four other members. *)
Lemma parseExplained_without_translation :
  exists ms,
    JSON_parse (Page.stripFences Examples.explained_without_translation)
    = Ok (JObject ms)
    /\ obj_has (js "translation") ms = false
    /\ Page.parseExplained Examples.explained_without_translation <> None.
Proof.
  eexists. split; [vm_compute; reflexivity|].
  split; [reflexivity | vm_compute; discriminate].
Qed.

(** C1, as the code has it: for a provider text that parses to an object,
    the explain decode gives no structured shape when one of the four
    members corrected, explanation, naturalSuggestion, score is missing;
    when the four are there and the coercions return (the score as a
    number), it gives the feedback with each string member coerced by
    [String], the empty string for a member that is null, and the score
    coerced by [Number]; the member translation may be missing, and is then
    the empty string. *)
Theorem parseExplained_decodes (content : jsstring) (ms : list (jsstring * json)) :
  JSON_parse (Page.stripFences content) = Ok (JObject ms) ->
  (forall k,
     In k [js "corrected"; js "explanation"; js "naturalSuggestion"; js "score"] ->
     obj_has k ms = false ->
     Page.parseExplained content = None)
  /\ (forall c t e n s,
        (forall k,
           In k [js "corrected"; js "explanation"; js "naturalSuggestion";
                 js "score"] ->
           obj_has k ms = true) ->
        Page.string_field (js "corrected") (JObject ms) = Ok c ->
        Page.string_field (js "translation") (JObject ms) = Ok t ->
        Page.string_field (js "explanation") (JObject ms) = Ok e ->
        Page.string_field (js "naturalSuggestion") (JObject ms) = Ok n ->
        Number_of (obj_get (js "score") ms) = Ok s ->
        isNaN s = false ->
        Page.parseExplained content
        = Some {| Page.corrected := c;
                  Page.translation := t;
                  Page.explanation := e;
                  Page.naturalSuggestion := n;
                  Page.score := s |})
  /\ (obj_has (js "translation") ms = false ->
      Page.string_field (js "translation") (JObject ms) = Ok []).
Proof.
  intros P. split; [|split].
  - intros k K H. exact (parseExplained_missing_key content ms k P K H).
  - intros c t e n s G Hc Ht He Hn Hs _.
    unfold Page.parseExplained. cbv zeta.
    rewrite (explained_try_object content ms P).
    rewrite !G by (simpl; tauto).
    rewrite Hc, Ht, He, Hn, Hs. reflexivity.
  - unfold obj_has, Page.string_field. cbn [get_property].
    destruct (obj_get (js "translation") ms); [discriminate|reflexivity].
Qed.

Lemma parseExplained_decodes_witness :
  Page.parseExplained Examples.scenario_B
  = Some {| Page.corrected := js "I went...";
            Page.translation := [];
            Page.explanation := js "past tense";
            Page.naturalSuggestion := js "I went to school yesterday.";
            Page.score := of_N 6 |}.
Proof.
  assert (P : JSON_parse (Page.stripFences Examples.scenario_B)
              = Ok (JObject Examples.scenario_B_members))
    by (vm_compute; reflexivity).
  destruct (parseExplained_decodes Examples.scenario_B
              Examples.scenario_B_members P) as (_ & H & _).
  apply H; try reflexivity.
  intros k [<- | [<- | [<- | [<- | []]]]]; reflexivity.
Defined.

(** C3, on the code: the score 7 and the score given as the string 7 are
    decoded to 7, and the score given as the string seven is decoded to
    NaN: [Number] gives NaN, and NaN is not replaced by 0. *)
Theorem parseExplained_score_seven :
  option_map Page.score
    (Page.parseExplained (Examples.explained_with_score (js "7")))
  = Some (of_N 7)
  /\ option_map Page.score
       (Page.parseExplained (Examples.explained_with_score (quoted "7")))
     = Some (of_N 7)
  /\ option_map Page.score
       (Page.parseExplained (Examples.explained_with_score (quoted "seven")))
     = Some NaN.
Proof. repeat split; vm_compute; reflexivity. Qed.

(** An explained answer without the member [translation], one of the
    five of the shape, is no failure of the decode: the decoder returns a
    shape, and the component shows the card and not the text. *)
Lemma missing_translation_shows_card :
  exists ms,
    JSON_parse (Page.stripFences Examples.fenced_without_translation)
    = Ok (JObject ms)
    /\ obj_has (js "translation") ms = false
    /\ Page.parseExplained Examples.fenced_without_translation <> None
    /\ Page.shown
         (Page.AssistantMessage Examples.fenced_without_translation
            Tutor.explain)
       <> Page.ContentText Examples.fenced_without_translation.
Proof.
  eexists. split; [vm_compute; reflexivity|].
  split; [reflexivity|]. split; vm_compute; discriminate.
Qed.

(** C4, as the code has it: in a structured mode the decode of any
    provider text returns, and gives no structured shape when [JSON.parse]
    throws, when anything else in the [try] block throws, when the parsed
    value is not an object, and when a member the guard of the decoder
    asks for is missing (for the explain shape: corrected, explanation,
    naturalSuggestion or score, and not translation; for the informal
    shape: each of its three members); the component then shows the
    content as it is. *)
Theorem decode_failure_shows_content (content : jsstring) :
  (forall e,
     JSON_parse (Page.stripFences content) = Throw e ->
     Page.parseExplained content = None /\ Page.parseInformal content = None)
  /\ (forall e,
        Page.explained_try (Page.stripFences content) = Throw e ->
        Page.parseExplained content = None)
  /\ (forall e,
        Page.informal_try (Page.stripFences content) = Throw e ->
        Page.parseInformal content = None)
  /\ (forall o,
        JSON_parse (Page.stripFences content) = Ok o ->
        (forall ms, o <> JObject ms) ->
        Page.parseExplained content = None /\ Page.parseInformal content = None)
  /\ (forall ms k,
        JSON_parse (Page.stripFences content) = Ok (JObject ms) ->
        In k [js "corrected"; js "explanation"; js "naturalSuggestion";
              js "score"] ->
        obj_has k ms = false ->
        Page.parseExplained content = None)
  /\ (forall ms k,
        JSON_parse (Page.stripFences content) = Ok (JObject ms) ->
        In k [js "informal"; js "alreadyCorrect"; js "translation"] ->
        obj_has k ms = false ->
        Page.parseInformal content = None)
  /\ (Page.parseExplained content = None ->
      Page.AssistantMessage content Tutor.explain
      = {| Page.shown := Page.ContentText content; Page.ttsText := content |})
  /\ (Page.parseInformal content = None ->
      Page.AssistantMessage content Tutor.informal
      = {| Page.shown := Page.ContentText content; Page.ttsText := content |}).
Proof.
  repeat apply conj.
  - intros e H. unfold Page.parseExplained, Page.parseInformal,
      Page.explained_try, Page.informal_try. now rewrite H.
  - intros e H. unfold Page.parseExplained. cbv zeta. now rewrite H.
  - intros e H. unfold Page.parseInformal. cbv zeta. now rewrite H.
  - intros o P N. unfold Page.parseExplained, Page.parseInformal. cbv zeta.
    now rewrite (explained_try_not_object content o P N),
      (informal_try_not_object content o P N).
  - intros ms k. apply parseExplained_missing_key.
  - intros ms k. apply parseInformal_missing_key.
  - intros H. unfold Page.AssistantMessage. now rewrite H.
  - intros H. unfold Page.AssistantMessage. now rewrite H.
Qed.

Lemma decode_failure_shows_content_witness :
  Page.parseExplained Examples.scenario_C = None
  /\ Page.AssistantMessage Examples.scenario_C Tutor.explain
     = {| Page.shown := Page.ContentText Examples.scenario_C;
          Page.ttsText := Examples.scenario_C |}.
Proof.
  destruct (decode_failure_shows_content Examples.scenario_C)
    as (H1 & _ & _ & _ & _ & _ & H7 & _).
  assert (P : JSON_parse (Page.stripFences Examples.scenario_C)
              = Throw SyntaxError) by reflexivity.
  split; [apply (H1 _ P) | apply H7, (H1 _ P)].
Defined.

(** C10: when the members a decoder asks for are all there and null (for
    the explain shape: the five members), the decode succeeds, every string
    is the empty string, the score is 0 and alreadyCorrect is false. *)
Theorem null_members_are_decoded (content : jsstring) (ms : list (jsstring * json)) :
  JSON_parse (Page.stripFences content) = Ok (JObject ms) ->
  ((forall k,
      In k [js "corrected"; js "translation"; js "explanation";
            js "naturalSuggestion"; js "score"] ->
      obj_get k ms = Some JNull) ->
   Page.parseExplained content
   = Some {| Page.corrected := [];
             Page.translation := [];
             Page.explanation := [];
             Page.naturalSuggestion := [];
             Page.score := of_N 0 |})
  /\ ((forall k,
         In k [js "informal"; js "alreadyCorrect"; js "translation"] ->
         obj_get k ms = Some JNull) ->
      Page.parseInformal content
      = Some {| Page.informal := [];
                Page.alreadyCorrect := false;
                Page.informalTranslation := [] |}).
Proof.
  intros P. split; intros H.
  - unfold Page.parseExplained. cbv zeta.
    rewrite (explained_try_object content ms P).
    unfold obj_has, Page.string_field. cbn [get_property].
    rewrite !H by (simpl; tauto). reflexivity.
  - unfold Page.parseInformal. cbv zeta.
    rewrite (informal_try_object content ms P).
    unfold obj_has, Page.string_field. cbn [get_property].
    rewrite !H by (simpl; tauto). reflexivity.
Qed.

Lemma null_members_are_decoded_witness :
  Page.parseExplained Examples.explained_nulls
  = Some {| Page.corrected := [];
            Page.translation := [];
            Page.explanation := [];
            Page.naturalSuggestion := [];
            Page.score := of_N 0 |}
  /\ Page.parseInformal Examples.informal_nulls
     = Some {| Page.informal := [];
               Page.alreadyCorrect := false;
               Page.informalTranslation := [] |}.
Proof.
  split.
  - assert (P : JSON_parse (Page.stripFences Examples.explained_nulls)
                = Ok (JObject Examples.explained_nulls_members))
      by (vm_compute; reflexivity).
    apply (null_members_are_decoded _ _ P).
    intros k [<- | [<- | [<- | [<- | [<- | []]]]]]; reflexivity.
  - assert (P : JSON_parse (Page.stripFences Examples.informal_nulls)
                = Ok (JObject Examples.informal_nulls_members))
      by (vm_compute; reflexivity).
    apply (null_members_are_decoded _ _ P).
    intros k [<- | [<- | [<- | []]]]; reflexivity.
Defined.

(** ** The route *)

Section Route.

Variable world : Route.provider.

(** The call the route builds is the call of the specification. *)
Lemma POST_with_key (key : jsstring) (body : Route.Body.t) :
  key <> [] ->
  Route.POST (Some key) world (Ok body) []
  = let client := {| Route.apiKey := key |} in
    match world client (Spec.outbound_call body) with
    | Ok completion =>
        (Ok {| Route.Response.body :=
                 Route.Response.Content (Route.first_content completion);
               Route.Response.status := 200 |},
         [Route.ProviderCall client (Spec.outbound_call body)])
    | Throw err =>
        (Ok {| Route.Response.body :=
                 Route.Response.Failure (Spec.error_string err);
               Route.Response.status := 500 |},
         [Route.ProviderCall client (Spec.outbound_call body);
          Route.ConsoleError err])
    end.
Proof.
  intros K. destruct key as [|c key]; [congruence|].
  unfold Route.POST, Route.try_catch, Route.iobind, Route.lift, Route.getGroq,
    Route.create, Route.emit, Route.ret.
  change (world {| Route.apiKey := c :: key |} _)
    with (world {| Route.apiKey := c :: key |} (Spec.outbound_call body)).
  cbv zeta.
  destruct (world {| Route.apiKey := c :: key |} (Spec.outbound_call body));
    reflexivity.
Qed.

Lemma POST_without_key (key : option jsstring)
  (request : result Route.exception Route.Body.t) :
  Route.missing key = true ->
  exists err,
    Route.POST key world request []
    = (Ok {| Route.Response.body :=
               Route.Response.Failure (Spec.error_string err);
             Route.Response.status := 500 |},
       [Route.ConsoleError err])
    /\ (forall body, request = Ok body ->
        err = Route.ErrorInstance
                (js "GROQ_API_KEY n" ++ [227%N] ++ js "o configurada.")).
Proof.
  intros M.
  destruct request as [body|e].
  - eexists. split; [|reflexivity].
    destruct key as [[|c k]|]; try discriminate M; reflexivity.
  - exists e. split; [|discriminate].
    destruct key as [[|c k]|]; try discriminate M; reflexivity.
Qed.

End Route.

(** C5: the calls of the provider the route makes for a request are at
    most one, each is the call of the specification (the directive for the
    language and the mode, then the turns of the history with their
    content unchanged; the fixed model; temperature 0.3), and with a key
    there is exactly one. *)
Theorem POST_sends_directive_and_history
  (key : option jsstring) (world : Route.provider) (body : Route.Body.t) :
  let calls := Route.provider_calls (snd (Route.POST key world (Ok body) [])) in
  (Route.missing key = false -> calls = [Spec.outbound_call body])
  /\ (forall call, In call calls -> call = Spec.outbound_call body)
  /\ length calls <= 1
  /\ map Route.Param.content (Route.Create.messages (Spec.outbound_call body))
     = Route.systemPrompt (Route.Body.language body) (Route.Body.mode body)
       :: map Route.Message.content (Route.Body.messages body)
  /\ Route.Create.model (Spec.outbound_call body) = Route.GROQ_MODEL
  /\ Route.Create.temperature (Spec.outbound_call body) = Route.temperature_0_3.
Proof.
  cbv zeta.
  assert (E : Route.provider_calls (snd (Route.POST key world (Ok body) []))
              = if Route.missing key then [] else [Spec.outbound_call body]).
  { destruct (Route.missing key) eqn:M.
    - destruct (POST_without_key world key (Ok body) M) as (err & -> & _).
      reflexivity.
    - destruct key as [[|c k]|]; try discriminate M.
      rewrite POST_with_key by discriminate. cbv zeta.
      destruct (world _ _); reflexivity. }
  rewrite E. repeat apply conj.
  - now intros ->.
  - destruct (Route.missing key); simpl; intuition.
  - destruct (Route.missing key); simpl; lia.
  - simpl. now rewrite map_map.
  - reflexivity.
  - reflexivity.
Qed.

Lemma POST_sends_directive_and_history_witness :
  Route.provider_calls
    (snd (Route.POST (Some (js "gsk_key"))
            (Examples.answering (js "I went to school yesterday."))
            (Ok Examples.scenario_A) []))
  = [Spec.outbound_call Examples.scenario_A].
Proof.
  apply (POST_sends_directive_and_history (Some (js "gsk_key"))
           (Examples.answering (js "I went to school yesterday."))
           Examples.scenario_A).
  reflexivity.
Defined.

(** C6: without the key the route calls the provider not at all and
    answers with one error string (for a request that could be read: the
    message of [getGroq]); when the provider fails, the route has called it
    once and answers with one error string, the message of the failure. *)
Theorem POST_failure_is_one_string
  (key : option jsstring) (world : Route.provider)
  (request : result Route.exception Route.Body.t) :
  (Route.missing key = true ->
   Route.provider_calls (snd (Route.POST key world request [])) = []
   /\ (exists error,
         fst (Route.POST key world request [])
         = Ok {| Route.Response.body := Route.Response.Failure error;
                 Route.Response.status := 500 |})
   /\ (forall body,
         request = Ok body ->
         fst (Route.POST key world request [])
         = Ok {| Route.Response.body :=
                   Route.Response.Failure
                     (js "GROQ_API_KEY n" ++ [227%N] ++ js "o configurada.");
                 Route.Response.status := 500 |}))
  /\ (forall k body err,
        key = Some k -> k <> [] -> request = Ok body ->
        world {| Route.apiKey := k |} (Spec.outbound_call body) = Throw err ->
        fst (Route.POST key world request [])
        = Ok {| Route.Response.body :=
                  Route.Response.Failure (Spec.error_string err);
                Route.Response.status := 500 |}
        /\ Route.provider_calls (snd (Route.POST key world request []))
           = [Spec.outbound_call body]).
Proof.
  split.
  - intros M. destruct (POST_without_key world key request M) as (err & E & B).
    rewrite E. split; [reflexivity|]. split; [eexists; reflexivity|].
    intros body R. now rewrite (B body R).
  - intros k body err -> K -> W.
    rewrite (POST_with_key world k body K). cbv zeta. now rewrite W.
Qed.

Lemma POST_failure_is_one_string_witness :
  (Route.provider_calls
     (snd (Route.POST None (Examples.failing (js "Connection error."))
             (Ok Examples.scenario_A) [])) = []
   /\ fst (Route.POST None (Examples.failing (js "Connection error."))
             (Ok Examples.scenario_A) [])
      = Ok {| Route.Response.body :=
                Route.Response.Failure
                  (js "GROQ_API_KEY n" ++ [227%N] ++ js "o configurada.");
              Route.Response.status := 500 |})
  /\ (fst (Route.POST (Some (js "gsk_key"))
             (Examples.failing (js "Connection error."))
             (Ok Examples.scenario_A) [])
      = Ok {| Route.Response.body :=
                Route.Response.Failure (js "Connection error.");
              Route.Response.status := 500 |}
      /\ Route.provider_calls
           (snd (Route.POST (Some (js "gsk_key"))
                   (Examples.failing (js "Connection error."))
                   (Ok Examples.scenario_A) []))
         = [Spec.outbound_call Examples.scenario_A]).
Proof.
  split.
  - destruct (POST_failure_is_one_string None
                (Examples.failing (js "Connection error."))
                (Ok Examples.scenario_A)) as [H _].
    destruct (H eq_refl) as (H1 & _ & H3).
    split; [exact H1 | exact (H3 _ eq_refl)].
  - destruct (POST_failure_is_one_string (Some (js "gsk_key"))
                (Examples.failing (js "Connection error."))
                (Ok Examples.scenario_A)) as [_ H].
    apply (H (js "gsk_key") Examples.scenario_A
             (Route.ErrorInstance (js "Connection error.")));
      try reflexivity.
    discriminate.
Defined.

(** C7: when the provider answers, the route answers with the content of
    the first choice, trimmed; with the empty string when there is no
    choice or the first choice has no content; in each case with status
    200 and not with an error. *)
Theorem POST_returns_first_content
  (key : jsstring) (world : Route.provider) (body : Route.Body.t)
  (completion : Route.Completion.t) :
  key <> [] ->
  world {| Route.apiKey := key |} (Spec.outbound_call body) = Ok completion ->
  fst (Route.POST (Some key) world (Ok body) [])
  = Ok {| Route.Response.body :=
            Route.Response.Content
              match Route.Completion.choices completion with
              | {| Route.Completion.message :=
                     Some {| Route.Completion.content := Some text |} |} :: _ =>
                  trim text
              | _ => []
              end;
          Route.Response.status := 200 |}.
Proof.
  intros K W. rewrite (POST_with_key world key body K). cbv zeta. rewrite W.
  unfold Route.first_content.
  destruct (Route.Completion.choices completion) as [|[[[[text|]]|]] rest];
    reflexivity.
Qed.

Lemma POST_returns_first_content_witness :
  fst (Route.POST (Some (js "gsk_key"))
         (Examples.answering (js "  I went to school yesterday.
"))
         (Ok Examples.scenario_A) [])
  = Ok {| Route.Response.body :=
            Route.Response.Content (js "I went to school yesterday.");
          Route.Response.status := 200 |}.
Proof.
  apply (POST_returns_first_content (js "gsk_key")
           (Examples.answering (js "  I went to school yesterday.
"))
           Examples.scenario_A
           {| Route.Completion.choices :=
                [{| Route.Completion.message :=
                      Some {| Route.Completion.content :=
                                Some (js "  I went to school yesterday.
") |} |}] |}).
  - discriminate.
  - reflexivity.
Defined.

(** No choice at all: the empty string, status 200. *)
Example POST_without_choice :
  fst (Route.POST (Some (js "gsk_key"))
         (fun _ _ => Ok {| Route.Completion.choices := [] |})
         (Ok Examples.scenario_A) [])
  = Ok {| Route.Response.body := Route.Response.Content [];
          Route.Response.status := 200 |}.
Proof. reflexivity. Qed.

(** * Further properties of the decoders *)

Section DecodersMore.

Variable content : jsstring.

Lemma explained_try_cases :
  (exists e, JSON_parse (Page.stripFences content) = Throw e)
  \/ (exists o, JSON_parse (Page.stripFences content) = Ok o
                /\ forall ms, o <> JObject ms)
  \/ (exists ms, JSON_parse (Page.stripFences content) = Ok (JObject ms)).
Proof.
  destruct (JSON_parse (Page.stripFences content)) as [o|e] eqn:P; eauto.
  destruct o; eauto; right; left; eexists; (split; [reflexivity|]);
    intros ms; discriminate.
Qed.

End DecodersMore.

(** X1: the informal decode gives a structured shape exactly when the text
    parses to an object with the three members informal, alreadyCorrect
    and translation whose two strings can be coerced; the shape then holds
    the two strings and the truth value of alreadyCorrect. *)
Theorem parseInformal_succeeds_iff (content : jsstring) (r : Page.InformalResponse) :
  Page.parseInformal content = Some r
  <-> exists ms,
        JSON_parse (Page.stripFences content) = Ok (JObject ms)
        /\ (forall k,
              In k [js "informal"; js "alreadyCorrect"; js "translation"] ->
              obj_has k ms = true)
        /\ Page.string_field (js "informal") (JObject ms)
           = Ok (Page.informal r)
        /\ Boolean_of (obj_get (js "alreadyCorrect") ms) = Page.alreadyCorrect r
        /\ Page.string_field (js "translation") (JObject ms)
           = Ok (Page.informalTranslation r).
Proof.
  split.
  - intros H. destruct (explained_try_cases content) as [[e P]|[(o & P & N)|[ms P]]].
    + unfold Page.parseInformal, Page.informal_try in H. now rewrite P in H.
    + unfold Page.parseInformal in H. cbv zeta in H.
      now rewrite (informal_try_not_object content o P N) in H.
    + exists ms. split; [exact P|].
      unfold Page.parseInformal in H. cbv zeta in H.
      rewrite (informal_try_object content ms P) in H.
      destruct (obj_has (js "informal") ms) eqn:K1; [|discriminate H].
      destruct (obj_has (js "alreadyCorrect") ms) eqn:K2; [|discriminate H].
      destruct (obj_has (js "translation") ms) eqn:K3; [|discriminate H].
      cbn [andb] in H.
      destruct (Page.string_field (js "informal") (JObject ms)) as [i|];
        [|discriminate H].
      destruct (Page.string_field (js "translation") (JObject ms)) as [t|];
        [|discriminate H].
      cbn in H. injection H as <-. cbn.
      repeat split; try reflexivity.
      intros k [<- | [<- | [<- | []]]]; assumption.
  - intros (ms & P & K & Hi & Ha & Ht).
    unfold Page.parseInformal. cbv zeta.
    rewrite (informal_try_object content ms P).
    rewrite !K by (simpl; tauto). rewrite Hi, Ht, Ha. cbn.
    now destruct r.
Qed.

Lemma parseInformal_succeeds_iff_witness :
  Page.parseInformal Examples.informal_answer
  = Some {| Page.informal := js "Yeah, that works.";
            Page.alreadyCorrect := false;
            Page.informalTranslation := js "Sim, funciona." |}.
Proof.
  apply (parseInformal_succeeds_iff Examples.informal_answer).
  exists Examples.informal_answer_members.
  split; [vm_compute; reflexivity|].
  split; [|repeat split].
  intros k [<- | [<- | [<- | []]]]; reflexivity.
Defined.

(** X2: the explain decode of a text depends only on the five members the
    decoder reads: two texts that parse to objects with the same values for
    these decode alike, whatever else the objects hold; likewise the
    informal decode and its three members. *)
Theorem decoders_ignore_other_members
  (content content' : jsstring) (ms ms' : list (jsstring * json)) :
  JSON_parse (Page.stripFences content) = Ok (JObject ms) ->
  JSON_parse (Page.stripFences content') = Ok (JObject ms') ->
  ((forall k,
      In k [js "corrected"; js "translation"; js "explanation";
            js "naturalSuggestion"; js "score"] ->
      obj_get k ms = obj_get k ms') ->
   Page.parseExplained content = Page.parseExplained content')
  /\ ((forall k,
         In k [js "informal"; js "alreadyCorrect"; js "translation"] ->
         obj_get k ms = obj_get k ms') ->
      Page.parseInformal content = Page.parseInformal content').
Proof.
  intros P P'. split; intros H.
  - unfold Page.parseExplained. cbv zeta.
    rewrite (explained_try_object content ms P),
      (explained_try_object content' ms' P').
    unfold obj_has, Page.string_field. cbn [get_property].
    rewrite !H by (simpl; tauto). reflexivity.
  - unfold Page.parseInformal. cbv zeta.
    rewrite (informal_try_object content ms P),
      (informal_try_object content' ms' P').
    unfold obj_has, Page.string_field. cbn [get_property].
    rewrite !H by (simpl; tauto). reflexivity.
Qed.

Lemma decoders_ignore_other_members_witness :
  Page.parseExplained Examples.scenario_B
  = Page.parseExplained Examples.scenario_B_noted.
Proof.
  assert (P : JSON_parse (Page.stripFences Examples.scenario_B)
              = Ok (JObject Examples.scenario_B_members))
    by (vm_compute; reflexivity).
  assert (P' : JSON_parse (Page.stripFences Examples.scenario_B_noted)
               = Ok (JObject Examples.scenario_B_noted_members))
    by (vm_compute; reflexivity).
  apply (decoders_ignore_other_members _ _ _ _ P P').
  intros k [<- | [<- | [<- | [<- | [<- | []]]]]]; reflexivity.
Defined.

(** ** Fences around a payload *)

Lemma forallb_rev (p : char -> bool) s : forallb p (rev s) = forallb p s.
Proof.
  induction s as [|c s IH]; simpl; [reflexivity|].
  rewrite forallb_app, IH. simpl. rewrite andb_true_r. apply andb_comm.
Qed.

Lemma dropWhile_app p x y :
  dropWhile p (x ++ y)
  = if forallb p x then dropWhile p y else dropWhile p x ++ y.
Proof.
  induction x as [|c x IH]; simpl; [reflexivity|].
  destruct (p c); simpl; [exact IH | reflexivity].
Qed.

Lemma dropWhile_all p x : forallb p x = true -> dropWhile p x = [].
Proof.
  induction x as [|c x IH]; simpl; [reflexivity|].
  destruct (p c); simpl; [exact IH | discriminate].
Qed.

Lemma forallb_dropWhile (q p : char -> bool) s :
  forallb q s = true -> forallb q (dropWhile p s) = true.
Proof.
  induction s as [|c s IH]; simpl; [reflexivity|].
  intros H. apply andb_true_iff in H as [H1 H2].
  destruct (p c); [auto | simpl; now rewrite H1, H2].
Qed.

Lemma trimEnd_cons c t :
  trimEnd (c :: t)
  = if isWhiteSpace c && forallb isWhiteSpace t then [] else c :: trimEnd t.
Proof.
  unfold trimEnd. simpl rev. rewrite dropWhile_app, forallb_rev.
  destruct (forallb isWhiteSpace t) eqn:A.
  - rewrite (dropWhile_all isWhiteSpace (rev t)) by now rewrite forallb_rev.
    simpl. destruct (isWhiteSpace c); reflexivity.
  - rewrite andb_false_r, rev_app_distr. reflexivity.
Qed.

Lemma trimEnd_all s : forallb isWhiteSpace s = true -> trimEnd s = [].
Proof.
  intros H. unfold trimEnd.
  rewrite dropWhile_all by now rewrite forallb_rev. reflexivity.
Qed.

Lemma whitespace_not_backtick c : isWhiteSpace c = true -> (c =? backtick)%N = false.
Proof.
  intros H. destruct (N.eqb_spec c backtick) as [->|]; [discriminate H|reflexivity].
Qed.

(** Where the text starts with a character that is neither white space
    nor a backtick, the pattern does not match. *)
Lemma match_fence_plain c r :
  isWhiteSpace c = false -> (c =? backtick)%N = false ->
  match_fence (c :: r) = None.
Proof.
  intros W B. unfold match_fence.
  assert (E : char_eqb backtick c = false)
    by (unfold char_eqb; now rewrite N.eqb_sym).
  cbn [fence app strip_prefix]. rewrite E.
  cbn [dropWhile]. rewrite W. unfold starts_with.
  cbn [fence strip_prefix]. now rewrite E.
Qed.

(** Where it starts with white space, only the second alternative can
    match: the white space and the fence after it. *)
Lemma match_fence_space c r :
  isWhiteSpace c = true ->
  match_fence (c :: r)
  = if starts_with fence (dropWhile isWhiteSpace r)
    then Some (S (length (takeWhile isWhiteSpace r)) + 3)
    else None.
Proof.
  intros W. unfold match_fence.
  assert (E : char_eqb backtick c = false).
  { unfold char_eqb. rewrite N.eqb_sym. now apply whitespace_not_backtick. }
  cbn [fence app strip_prefix]. rewrite E.
  cbn [dropWhile takeWhile]. rewrite W. reflexivity.
Qed.

Lemma starts_with_fence_plain c r :
  (c =? backtick)%N = false -> starts_with fence (c :: r) = false.
Proof.
  intros B. unfold starts_with, fence. cbn [strip_prefix].
  unfold char_eqb. now rewrite N.eqb_sym, B.
Qed.

Lemma skipn_app_length (a b : jsstring) : skipn (length a) (a ++ b) = b.
Proof. induction a; simpl; auto. Qed.

(** White space and then a fence at the end of the text go in one match. *)
Lemma replace_fences_space_fence w :
  forallb isWhiteSpace w = true -> replace_fences (w ++ fence) = [].
Proof.
  intros W. destruct w as [|c w].
  - reflexivity.
  - simpl in W. apply andb_true_iff in W as [Wc Ww].
    assert (M : match_fence ((c :: w) ++ fence) = Some (length (c :: w) + 3)).
    { cbn [app]. rewrite match_fence_space by assumption.
      rewrite dropWhile_app, Ww.
      assert (T : takeWhile isWhiteSpace (w ++ fence) = w).
      { clear - Ww. induction w as [|d w IH]; [reflexivity|].
        simpl in Ww. apply andb_true_iff in Ww as [Wd Ww].
        simpl. rewrite Wd. f_equal. auto. }
      rewrite T. reflexivity. }
    rewrite (replace_fences_match _ _ M).
    replace (length (c :: w) + 3) with (length ((c :: w) ++ fence))
      by (rewrite length_app; reflexivity).
    rewrite <- (app_nil_r ((c :: w) ++ fence)) at 2.
    now rewrite skipn_app_length.
Qed.

(** A text without backticks, white space and a closing fence: what is
    left is the text without its white space at the end. *)
Lemma replace_fences_closing s w :
  no_backtick s = true -> forallb isWhiteSpace w = true ->
  replace_fences (s ++ w ++ fence) = trimEnd s.
Proof.
  intros B W. induction s as [|c s IH].
  - cbn [app]. rewrite replace_fences_space_fence by assumption. reflexivity.
  - unfold no_backtick in B. simpl in B. apply andb_true_iff in B as [Bc Bs].
    apply negb_true_iff in Bc. specialize (IH Bs).
    rewrite trimEnd_cons. cbn [app].
    destruct (isWhiteSpace c) eqn:Wc.
    + destruct (forallb isWhiteSpace s) eqn:Ws; cbn [andb].
      * rewrite app_assoc.
        change (c :: (s ++ w) ++ fence) with ((c :: s ++ w) ++ fence).
        apply replace_fences_space_fence. simpl.
        now rewrite Wc, forallb_app, Ws, W.
      * rewrite replace_fences_no_match; [now rewrite IH|].
        rewrite match_fence_space by assumption.
        rewrite dropWhile_app, Ws.
        assert (F : starts_with fence (dropWhile isWhiteSpace s ++ w ++ fence)
                    = false).
        { pose proof (forallb_dropWhile _ isWhiteSpace s Bs) as D.
          destruct (dropWhile isWhiteSpace s) as [|d t] eqn:E.
          - exfalso. clear - Ws E. induction s as [|x s IH]; [discriminate|].
            simpl in *. destruct (isWhiteSpace x); [auto|discriminate].
          - simpl in D. apply andb_true_iff in D as [D _].
            apply negb_true_iff in D. now apply starts_with_fence_plain. }
        now rewrite F.
    + cbn [andb]. rewrite replace_fences_no_match; [now rewrite IH|].
      now apply match_fence_plain.
Qed.

Lemma no_backtick_no_fence s : no_backtick s = true -> has_fence s = false.
Proof.
  induction s as [|c s IH]; [reflexivity|].
  unfold no_backtick. simpl forallb. intros H.
  apply andb_true_iff in H as [Bc Bs]. apply negb_true_iff in Bc.
  cbn [has_fence]. rewrite starts_with_fence_plain by exact Bc. now apply IH.
Qed.

Lemma whitespace_no_backtick w : forallb isWhiteSpace w = true -> no_backtick w = true.
Proof.
  unfold no_backtick. induction w as [|c w IH]; simpl; [reflexivity|].
  intros H. apply andb_true_iff in H as [Wc Ww].
  now rewrite (whitespace_not_backtick c Wc), IH.
Qed.

Lemma skipn_length_diff (a b : jsstring) :
  skipn (length (a ++ b) - length b) (a ++ b) = b.
Proof.
  rewrite length_app.
  replace (length a + length b - length b) with (length a) by lia.
  apply skipn_app_length.
Qed.

(** An opening fence with the tag json, the payload and a closing fence. *)
Lemma replace_fences_json_fenced w1 w2 body :
  forallb isWhiteSpace w1 = true -> forallb isWhiteSpace w2 = true ->
  no_backtick body = true ->
  replace_fences (fence ++ js "json" ++ w1 ++ body ++ w2 ++ fence) = trim body.
Proof.
  intros W1 W2 B.
  set (R := w1 ++ body ++ w2 ++ fence).
  assert (M : match_fence (fence ++ js "json" ++ R)
              = Some (length (fence ++ js "json" ++ R)
                      - length (dropWhile isWhiteSpace R))) by reflexivity.
  rewrite (replace_fences_match _ _ M).
  assert (S : skipn (length (fence ++ js "json" ++ R)
                     - length (dropWhile isWhiteSpace R))
                (fence ++ js "json" ++ R)
              = dropWhile isWhiteSpace R).
  { rewrite <- (take_drop_while isWhiteSpace R) at 1 3.
    rewrite !app_assoc. apply skipn_length_diff. }
  rewrite S. subst R.
  replace (w1 ++ body ++ w2 ++ fence) with ((w1 ++ body) ++ w2 ++ fence)
    by now rewrite <- app_assoc.
  assert (T : trim body = trimEnd (dropWhile isWhiteSpace (w1 ++ body))).
  { unfold trim, trimStart. now rewrite dropWhile_app, W1. }
  rewrite T, dropWhile_app.
  destruct (forallb isWhiteSpace (w1 ++ body)) eqn:A.
  - rewrite dropWhile_app, W2.
    now rewrite (dropWhile_all isWhiteSpace (w1 ++ body) A).
  - apply replace_fences_closing; [|assumption].
    apply forallb_dropWhile. rewrite forallb_app.
    apply andb_true_iff. split; [now apply whitespace_no_backtick | exact B].
Qed.

(** X3: a payload without backticks between an opening fence with the tag
    json and a closing fence, with any white space inside the fences, is
    stripped to the trimmed payload, and both decoders decode the fenced
    text as they decode the bare payload. *)
Theorem fenced_payload_decodes_as_bare (w1 w2 body : jsstring) :
  forallb isWhiteSpace w1 = true ->
  forallb isWhiteSpace w2 = true ->
  no_backtick body = true ->
  Page.stripFences (fence ++ js "json" ++ w1 ++ body ++ w2 ++ fence)
  = trim body
  /\ Page.parseExplained (fence ++ js "json" ++ w1 ++ body ++ w2 ++ fence)
     = Page.parseExplained body
  /\ Page.parseInformal (fence ++ js "json" ++ w1 ++ body ++ w2 ++ fence)
     = Page.parseInformal body.
Proof.
  intros W1 W2 B.
  assert (F : Page.stripFences (fence ++ js "json" ++ w1 ++ body ++ w2 ++ fence)
              = trim body).
  { unfold Page.stripFences.
    rewrite replace_fences_json_fenced by assumption. apply trim_idem. }
  assert (G : Page.stripFences body = trim body).
  { unfold Page.stripFences.
    now rewrite replace_fences_no_fence by now apply no_backtick_no_fence. }
  split; [exact F|].
  unfold Page.parseExplained, Page.parseInformal. cbv zeta.
  now rewrite F, G.
Qed.

Lemma fenced_payload_decodes_as_bare_witness :
  Page.stripFences
    (fence ++ js "json" ++ newline ++ Examples.informal_answer ++ newline
     ++ fence)
  = trim Examples.informal_answer
  /\ Page.parseInformal
       (fence ++ js "json" ++ newline ++ Examples.informal_answer ++ newline
        ++ fence)
     = Page.parseInformal Examples.informal_answer.
Proof.
  destruct (fenced_payload_decodes_as_bare newline newline
              Examples.informal_answer) as (H1 & _ & H3);
    try reflexivity.
  split; [exact H1 | exact H3].
Defined.

(** ** The first fence of a text *)

Lemma trimEnd_plain c t :
  isWhiteSpace c = false -> trimEnd (c :: t) = c :: trimEnd t.
Proof. intros H. now rewrite trimEnd_cons, H. Qed.

Lemma dropWhile_stop (p : char -> bool) c r :
  p c = false -> dropWhile p (c :: r) = c :: r.
Proof. intros H. simpl. now rewrite H. Qed.

Lemma strip_prefix_Some p s r : strip_prefix p s = Some r -> s = p ++ r.
Proof.
  revert s. induction p as [|x p IH]; intros s; simpl.
  - now intros [= ->].
  - destruct s as [|y s]; [discriminate|].
    destruct (char_eqb x y) eqn:E; [|discriminate].
    apply N.eqb_eq in E. subst y. intros H. now rewrite (IH s H).
Qed.

(** Whether a text that is not empty and goes on with two backticks
    starts with a fence does not depend on what comes after these. *)
Lemma starts_with_fence_tail (u z z' : jsstring) :
  u <> [] ->
  starts_with fence (u ++ backtick :: backtick :: z)
  = starts_with fence (u ++ backtick :: backtick :: z').
Proof.
  intros N. unfold starts_with, fence.
  destruct u as [|x [|y [|w u]]]; [congruence| | |]; cbn [app strip_prefix];
    repeat match goal with
           | |- context [char_eqb ?a ?b] => destruct (char_eqb a b)
           end; reflexivity.
Qed.

Lemma ends_with_space_cons c t :
  ends_with_space (c :: t)
  = match t with [] => isWhiteSpace c | _ => ends_with_space t end.
Proof.
  unfold ends_with_space. destruct t as [|d t]; [reflexivity|].
  simpl rev. destruct (rev t) as [|e r]; reflexivity.
Qed.

Lemma ends_with_space_all w :
  w <> [] -> forallb isWhiteSpace w = true -> ends_with_space w = true.
Proof.
  intros N W. unfold ends_with_space.
  rewrite <- forallb_rev in W. destruct (rev w) as [|c r] eqn:E.
  - apply (f_equal (@rev char)) in E. rewrite rev_involutive in E.
    now elim N.
  - simpl in W. now apply andb_true_iff in W as [W _].
Qed.

Lemma takeWhile_all_app p (w x : jsstring) :
  forallb p w = true -> takeWhile p (w ++ x) = w ++ takeWhile p x.
Proof.
  induction w as [|c w IH]; simpl; [reflexivity|].
  destruct (p c); simpl; [intros H; now rewrite IH | discriminate].
Qed.

Lemma dropWhile_nil_all (p : char -> bool) s :
  dropWhile p s = [] -> forallb p s = true.
Proof.
  induction s as [|c s IH]; simpl; [reflexivity|].
  destruct (p c); [exact IH | discriminate].
Qed.

(** Where the text starts with a character that is not white space and
    with no fence, the pattern does not match. *)
Lemma match_fence_no_start c r :
  isWhiteSpace c = false -> starts_with fence (c :: r) = false ->
  match_fence (c :: r) = None.
Proof.
  intros W F. unfold match_fence.
  destruct (strip_prefix (fence ++ js "jso") (c :: r)) as [t|] eqn:E.
  - apply strip_prefix_app in E as [u U].
    unfold starts_with in F. now rewrite U in F.
  - cbn [dropWhile]. rewrite W. now rewrite F.
Qed.

(** White space and a fence go in one match: the scan goes on after the
    fence. *)
Lemma replace_fences_space_fence_then w b :
  w <> [] -> forallb isWhiteSpace w = true ->
  replace_fences (w ++ fence ++ b) = replace_fences b.
Proof.
  intros N W. destruct w as [|c w]; [congruence|].
  simpl in W. apply andb_true_iff in W as [Wc Ww].
  assert (M : match_fence ((c :: w) ++ fence ++ b)
              = Some (length ((c :: w) ++ fence))).
  { cbn [app]. rewrite match_fence_space by assumption.
    rewrite dropWhile_app, Ww.
    rewrite takeWhile_all_app by assumption.
    change (starts_with fence (dropWhile isWhiteSpace (fence ++ b))) with true.
    change (takeWhile isWhiteSpace (fence ++ b)) with (@nil char).
    rewrite app_nil_r. cbv iota. f_equal.
    change (c :: w ++ fence) with ((c :: w) ++ fence).
    rewrite length_app. reflexivity. }
  rewrite (replace_fences_match _ _ M).
  rewrite app_assoc. now rewrite skipn_app_length.
Qed.

(** A fence where the scan stands: with [jso] after it, the fence, the
    tag with its optional [n] and the white space after the tag go; else
    the fence alone. *)
Lemma replace_fences_leading_fence b :
  replace_fences (fence ++ b)
  = replace_fences
      match strip_prefix (js "jso") b with
      | Some r =>
          dropWhile isWhiteSpace
            match strip_prefix (js "n") r with Some t => t | None => r end
      | None => b
      end.
Proof.
  destruct (strip_prefix (js "jso") b) as [r|] eqn:E.
  - apply strip_prefix_Some in E. subst b.
    set (r' := match strip_prefix (js "n") r with Some t => t | None => r end).
    assert (M : match_fence (fence ++ js "jso" ++ r)
                = Some (length (fence ++ js "jso" ++ r)
                        - length (dropWhile isWhiteSpace r'))) by reflexivity.
    rewrite (replace_fences_match _ _ M). f_equal.
    assert (D : exists pre, fence ++ js "jso" ++ r
                            = pre ++ dropWhile isWhiteSpace r').
    { subst r'. destruct (strip_prefix (js "n") r) as [t|] eqn:F.
      - apply strip_prefix_Some in F. subst r.
        exists (fence ++ js "jso" ++ js "n" ++ takeWhile isWhiteSpace t).
        rewrite <- !app_assoc. now rewrite take_drop_while.
      - exists (fence ++ js "jso" ++ takeWhile isWhiteSpace r).
        rewrite <- !app_assoc. now rewrite take_drop_while. }
    destruct D as [pre D]. rewrite D. apply skipn_length_diff.
  - assert (M : match_fence (fence ++ b) = Some 3).
    { unfold match_fence.
      change (strip_prefix (fence ++ js "jso") (fence ++ b))
        with (strip_prefix (js "jso") b).
      rewrite E. reflexivity. }
    now rewrite (replace_fences_match _ _ M).
Qed.

(** Up to the first fence the text is kept, but for the white space
    right before the fence, which goes with it. *)
Lemma replace_fences_up_to_fence a b :
  has_fence (a ++ [backtick; backtick]) = false ->
  replace_fences (a ++ fence ++ b)
  = trimEnd a
    ++ replace_fences (if ends_with_space a then b else fence ++ b).
Proof.
  induction a as [|c t IH]; intros H; [reflexivity|].
  cbn [app has_fence] in H. apply orb_false_iff in H as [H1 H2].
  assert (S : starts_with fence (c :: t ++ fence ++ b) = false).
  { rewrite <- H1.
    apply (starts_with_fence_tail (c :: t) (backtick :: b) []). discriminate. }
  specialize (IH H2). cbn [app].
  destruct (isWhiteSpace c) eqn:Wc.
  - destruct (forallb isWhiteSpace t) eqn:Wt.
    + assert (A : forallb isWhiteSpace (c :: t) = true)
        by (simpl; now rewrite Wc, Wt).
      rewrite (trimEnd_all _ A).
      rewrite (ends_with_space_all (c :: t)) by (assumption || discriminate).
      change (c :: t ++ fence ++ b) with ((c :: t) ++ fence ++ b).
      apply replace_fences_space_fence_then; [discriminate | exact A].
    + assert (N : t <> []) by (intros ->; discriminate Wt).
      rewrite trimEnd_cons, Wt, andb_false_r.
      rewrite ends_with_space_cons. destruct t as [|d t']; [congruence|].
      rewrite replace_fences_no_match; [now rewrite IH|].
      rewrite match_fence_space by assumption.
      rewrite dropWhile_app, Wt.
      assert (F : starts_with fence
                    (dropWhile isWhiteSpace (d :: t') ++ fence ++ b) = false).
      { assert (G : has_fence (dropWhile isWhiteSpace (d :: t')
                               ++ [backtick; backtick]) = false).
        { destruct (has_fence (dropWhile isWhiteSpace (d :: t')
                               ++ [backtick; backtick])) eqn:X; [|reflexivity].
          assert (Y : dropWhile isWhiteSpace ((d :: t') ++ [backtick; backtick])
                      = dropWhile isWhiteSpace (d :: t') ++ [backtick; backtick])
            by now rewrite dropWhile_app, Wt.
          rewrite <- Y in X. apply has_fence_dropWhile in X. congruence. }
        destruct (dropWhile isWhiteSpace (d :: t')) as [|e u] eqn:E.
        - apply dropWhile_nil_all in E. congruence.
        - cbn [app has_fence] in G. apply orb_false_iff in G as [G _].
          rewrite <- G.
          apply (starts_with_fence_tail (e :: u) (backtick :: b) []).
          discriminate. }
      now rewrite F.
  - rewrite trimEnd_plain by assumption.
    rewrite ends_with_space_cons.
    rewrite replace_fences_no_match by now apply match_fence_no_start.
    rewrite IH. destruct t; [|reflexivity].
    now rewrite Wc.
Qed.

(** A text with a fence has a first one. *)
Lemma first_fence s :
  has_fence s = true ->
  exists a b,
    s = a ++ fence ++ b /\ has_fence (a ++ [backtick; backtick]) = false.
Proof.
  induction s as [|c t IH]; [discriminate|].
  cbn [has_fence]. destruct (starts_with fence (c :: t)) eqn:F.
  - intros _. unfold starts_with in F.
    destruct (strip_prefix fence (c :: t)) as [b|] eqn:E; [|discriminate].
    apply strip_prefix_Some in E. exists [], b. split; [exact E | reflexivity].
  - cbn [orb]. intros H. destruct (IH H) as (a & b & -> & A).
    exists (c :: a), b. split; [reflexivity|].
    cbn [app has_fence]. rewrite A, orb_false_r. rewrite <- F.
    apply (starts_with_fence_tail (c :: a) [] (backtick :: b)). discriminate.
Qed.

(** C8, as the code has it: stripping is the replacement of the matches
    of the pattern and then [trim]. The replacement only deletes
    characters. A text without a fence it leaves as it is. In a text with
    a fence it keeps what comes before the first fence, but for the white
    space right before that fence; the fence goes; when the fence is not
    preceded by white space and is followed by [jso], these letters, an
    [n] after them and the white space after the tag go too; and the
    rest of the text is treated in the same way, wherever the fence is. *)
Theorem stripFences_deletes_only (content : jsstring) :
  Page.stripFences content = trim (replace_fences content)
  /\ Subseq (Page.stripFences content) content
  /\ (has_fence content = false ->
      replace_fences content = content
      /\ Page.stripFences content = trim content)
  /\ (has_fence content = true ->
      exists a b,
        content = a ++ fence ++ b
        /\ has_fence (a ++ [backtick; backtick]) = false)
  /\ (forall a b,
        content = a ++ fence ++ b ->
        has_fence (a ++ [backtick; backtick]) = false ->
        replace_fences content
        = trimEnd a
          ++ replace_fences
               match (if ends_with_space a then None
                      else strip_prefix (js "jso") b) with
               | Some r =>
                   dropWhile isWhiteSpace
                     match strip_prefix (js "n") r with
                     | Some t => t
                     | None => r
                     end
               | None => b
               end).
Proof.
  split; [reflexivity|]. split; [|split; [|split]].
  - unfold Page.stripFences.
    eapply Subseq_trans; [apply Subseq_trim | apply Subseq_replace_from].
  - intros H. unfold Page.stripFences.
    now rewrite replace_fences_no_fence.
  - apply first_fence.
  - intros a b -> H. rewrite (replace_fences_up_to_fence a b H).
    destruct (ends_with_space a); [reflexivity|].
    now rewrite replace_fences_leading_fence.
Qed.

Lemma stripFences_deletes_only_witness :
  replace_fences (js "Sure: ok```json
{}
```")
  = js "Sure: ok" ++ replace_fences (js "{}
```")
  /\ Page.stripFences (js "Sure: ok```json
{}
```")
     = js "Sure: ok{}".
Proof.
  split; [|reflexivity].
  apply (stripFences_deletes_only (js "Sure: ok```json
{}
```")) with (a := js "Sure: ok") (b := js "json
{}
```"); reflexivity.
Defined.

(** ** Error turns *)

Lemma stripFences_error_prefix msg :
  exists rest, Page.stripFences (js "Erro: " ++ msg) = js "Erro:" ++ rest.
Proof.
  exists (trimEnd (replace_fences (32%N :: msg))).
  unfold Page.stripFences.
  change (js "Erro: " ++ msg)
    with (69 :: 114 :: 114 :: 111 :: 58 :: 32 :: msg)%N.
  do 5 (rewrite replace_fences_no_match by (now apply match_fence_plain)).
  unfold trim, trimStart. rewrite dropWhile_stop by reflexivity.
  do 5 (rewrite trimEnd_plain by reflexivity).
  reflexivity.
Qed.

Lemma JSON_parse_error_prefix rest :
  JSON_parse (js "Erro:" ++ rest) = Throw SyntaxError.
Proof. reflexivity. Qed.

Lemma decoders_reject_error_turn (msg : jsstring) :
  Page.parseExplained (js "Erro: " ++ msg) = None
  /\ Page.parseInformal (js "Erro: " ++ msg) = None.
Proof.
  destruct (stripFences_error_prefix msg) as [rest E]. split.
  - unfold Page.parseExplained, Page.explained_try. cbv zeta.
    now rewrite E, JSON_parse_error_prefix.
  - unfold Page.parseInformal, Page.informal_try. cbv zeta.
    now rewrite E, JSON_parse_error_prefix.
Qed.

(** X4: a turn that starts with [Erro: ] is shown as it is in every mode:
    no decoder takes it for a structured answer. *)
Theorem error_turn_is_shown_verbatim (msg : jsstring) (mode : Tutor.TutorMode) :
  Page.AssistantMessage (js "Erro: " ++ msg) mode
  = {| Page.shown := Page.ContentText (js "Erro: " ++ msg);
       Page.ttsText := js "Erro: " ++ msg |}.
Proof.
  destruct (decoders_reject_error_turn msg) as [X I].
  unfold Page.AssistantMessage. destruct mode; rewrite ?X, ?I; reflexivity.
Qed.

(** * Further properties of the route *)

(** X5: [POST] answers every request and never throws: with status 200
    and a content after exactly one call of the provider, or with status
    500 and one error string, written to the console, after at most one
    call; the events before are kept. A request whose body cannot be read
    is answered with the error of the reading, whatever the key, without a
    call. *)
Theorem POST_always_responds
  (key : option jsstring) (world : Route.provider)
  (request : result Route.exception Route.Body.t) (log : list Route.event) :
  (exists resp events,
     Route.POST key world request log = (Ok resp, log ++ events)
     /\ ((exists text client call,
            resp = {| Route.Response.body := Route.Response.Content text;
                      Route.Response.status := 200 |}
            /\ events = [Route.ProviderCall client call])
         \/ (exists err,
               resp = {| Route.Response.body :=
                           Route.Response.Failure (Spec.error_string err);
                         Route.Response.status := 500 |}
               /\ (events = [Route.ConsoleError err]
                   \/ exists client call,
                        events = [Route.ProviderCall client call;
                                  Route.ConsoleError err]))))
  /\ (forall e,
        request = Throw e ->
        Route.POST key world request log
        = (Ok {| Route.Response.body :=
                   Route.Response.Failure (Spec.error_string e);
                 Route.Response.status := 500 |},
           log ++ [Route.ConsoleError e])).
Proof.
  split.
  - destruct request as [body|e].
    + destruct key as [[|c k]|].
      * do 2 eexists. split; [reflexivity|]. right.
        exists (Route.ErrorInstance
                  (js "GROQ_API_KEY n" ++ [227%N] ++ js "o configurada.")).
        split; [reflexivity | left; reflexivity].
      * unfold Route.POST, Route.try_catch, Route.iobind, Route.lift,
          Route.getGroq, Route.create, Route.emit, Route.ret. cbv zeta.
        match goal with |- context [world ?g ?r] => destruct (world g r) as [completion|err] end.
        -- do 2 eexists. split; [reflexivity|]. left.
           do 3 eexists. split; reflexivity.
        -- do 2 eexists.
           split; [cbv [Route.iobind Route.lift]; rewrite <- app_assoc;
                   reflexivity|].
           right. exists err. split; [reflexivity|].
           right. do 2 eexists. reflexivity.
      * do 2 eexists. split; [reflexivity|]. right.
        exists (Route.ErrorInstance
                  (js "GROQ_API_KEY n" ++ [227%N] ++ js "o configurada.")).
        split; [reflexivity | left; reflexivity].
    + do 2 eexists. split; [reflexivity|]. right. exists e.
      split; [reflexivity | left; reflexivity].
  - intros e ->. reflexivity.
Qed.

Lemma POST_always_responds_witness :
  Route.POST None (Examples.answering (js "Hi"))
    (Throw (Route.ErrorInstance (js "Unexpected end of JSON input"))) []
  = (Ok {| Route.Response.body :=
             Route.Response.Failure (js "Unexpected end of JSON input");
           Route.Response.status := 500 |},
     [Route.ConsoleError
        (Route.ErrorInstance (js "Unexpected end of JSON input"))]).
Proof.
  exact (proj2 (POST_always_responds None (Examples.answering (js "Hi"))
                  (Throw (Route.ErrorInstance
                            (js "Unexpected end of JSON input"))) [])
           _ eq_refl).
Defined.

(** X6: the directive tells the mode, and for translate and explain the
    language: two directives are the same text exactly when the modes are
    the same and either the languages are the same or the mode is correct
    or informal, whose directives do not name the language. *)
Theorem systemPrompt_determines_mode
  (l l' : Tutor.TutorLanguage) (m m' : Tutor.TutorMode) :
  Route.systemPrompt l m = Route.systemPrompt l' m'
  <-> m = m' /\ (l = l' \/ m = Tutor.correct \/ m = Tutor.informal).
Proof.
  split.
  - destruct l, m, l', m'; intros H;
      try (vm_compute in H; discriminate H); auto.
  - intros [<- [<- | [-> | ->]]]; try reflexivity; destruct l, l'; reflexivity.
Qed.

Lemma systemPrompt_determines_mode_witness :
  Route.systemPrompt Tutor.en Tutor.correct
  = Route.systemPrompt Tutor.de Tutor.correct.
Proof.
  apply (systemPrompt_determines_mode Tutor.en Tutor.de Tutor.correct
           Tutor.correct).
  split; [reflexivity | right; left; reflexivity].
Defined.

(** X7: the answer each structured directive shows as its example is an
    answer the decoder of that mode accepts, for both languages. *)
Theorem directive_examples_decode (lang : Tutor.TutorLanguage) :
  (exists intro example,
     Route.systemPrompt lang Tutor.explain
     = intro ++ js "Example format: " ++ example
     /\ Page.parseExplained example
        = Some {| Page.corrected := js "...";
                  Page.translation := js "...";
                  Page.explanation := js "...";
                  Page.naturalSuggestion := js "...";
                  Page.score := of_N 7 |})
  /\ (exists intro example,
        Route.systemPrompt lang Tutor.informal
        = intro ++ js "Example: " ++ example
        /\ Page.parseInformal example
           = Some {| Page.informal := js "Yeah, that's totally fine by me.";
                     Page.alreadyCorrect := false;
                     Page.informalTranslation :=
                       js "Sim, pra mim t" ++ [225%N] ++ js " tranquilo." |}).
Proof.
  split.
  - exists (firstn (length (Route.systemPrompt lang Tutor.explain) - 111)
              (Route.systemPrompt lang Tutor.explain)).
    exists (skipn (length (Route.systemPrompt lang Tutor.explain) - 95)
              (Route.systemPrompt lang Tutor.explain)).
    destruct lang; split; vm_compute; reflexivity.
  - exists (firstn (length (Route.systemPrompt lang Tutor.informal) - 122)
              (Route.systemPrompt lang Tutor.informal)).
    exists (skipn (length (Route.systemPrompt lang Tutor.informal) - 113)
              (Route.systemPrompt lang Tutor.informal)).
    destruct lang; split; vm_compute; reflexivity.
Qed.

(** * Properties of the page component *)

Lemma str_eqb_eq a b : str_eqb a b = true <-> a = b.
Proof.
  revert b; induction a as [|x a IH]; intros [|y b]; simpl; split;
    try congruence; try reflexivity.
  - intros H. apply andb_true_iff in H as [H1 H2].
    apply N.eqb_eq in H1. apply IH in H2. congruence.
  - intros H. injection H as -> ->. apply andb_true_iff; split.
    + apply N.eqb_refl.
    + now apply IH.
Qed.

Lemma send_start_request (st : Home.state) :
  trim (Home.input st) <> [] ->
  Home.loading st = false ->
  exists st',
    Home.send_start None st
    = (st',
       Some {| Route.Body.language := Home.language st;
               Route.Body.mode := Home.mode st;
               Route.Body.messages :=
                 Home.messages st ++ [Home.user_turn (trim (Home.input st))] |})
    /\ Home.messages st'
       = Home.messages st ++ [Home.user_turn (trim (Home.input st))]
    /\ Home.input st' = [].
Proof.
  intros N L. unfold Home.send_start. cbv zeta. rewrite L.
  destruct (trim (Home.input st)) as [|c rest]; [congruence|].
  eexists. split; [reflexivity|]. now split.
Qed.



(** ** The page over time *)

Lemma send_start_cases textToSend st :
  Home.send_start textToSend st = (st, None)
  \/ (Home.loading st = false
      /\ exists text st',
           text <> [] /\ trim text = text
           /\ Home.send_start textToSend st
              = (st',
                 Some {| Route.Body.language := Home.language st;
                         Route.Body.mode := Home.mode st;
                         Route.Body.messages :=
                           Home.messages st ++ [Home.user_turn text] |})
           /\ Home.messages st' = Home.messages st ++ [Home.user_turn text]
           /\ Home.loading st' = true
           /\ Home.langOpen st' = Home.langOpen st
           /\ Home.modeOpen st' = Home.modeOpen st).
Proof.
  unfold Home.send_start. cbv zeta.
  set (text := trim (match textToSend with
                     | Some t => t
                     | None => Home.input st
                     end)).
  assert (T : trim text = text) by apply trim_idem.
  destruct text as [|c rest] eqn:E; [now left|].
  destruct (Home.loading st) eqn:L; [now left|].
  right. split; [reflexivity|].
  exists (c :: rest). eexists. split; [discriminate|]. split; [exact T|].
  split; [reflexivity|].
  destruct textToSend as [[|d t]|]; now repeat split.
Qed.

Lemma one_in_flight_step pg a :
  Invariants.one_in_flight pg -> Invariants.one_in_flight (Home.step pg a).
Proof.
  unfold Invariants.one_in_flight. intros I.
  destruct a; try exact I; cbn [Home.step].
  - destruct (send_start_cases textToSend (Home.current pg))
      as [E | (L & text & st' & _ & _ & E & _ & L' & _)]; rewrite E.
    + exact I.
    + cbn. destruct I as [[_ P] | [L0 _]]; [|congruence].
      right. rewrite P. split; [exact L'|]. eexists. reflexivity.
  - destruct I as [[L P] | [L (body & P)]]; rewrite P.
    + left. now split.
    + left. cbn. now split.
Qed.

Lemma one_in_flight_run actions :
  forall pg, Invariants.one_in_flight pg ->
             Invariants.one_in_flight (Home.run pg actions).
Proof.
  induction actions as [|a actions IH]; intros pg I; [exact I|].
  apply IH, one_in_flight_step, I.
Qed.

(** A handler of a render that is up to date does what [Home.step] says;
    so does, on any render, a handler that does not read its render. *)
Lemma handle_fresh pg a :
  Renders.seen pg = Home.current (Renders.now pg) ->
  Renders.handle (Renders.seen pg) (Renders.now pg) a
  = Home.step (Renders.now pg) a.
Proof. intros ->. destruct a; reflexivity. Qed.

Lemma step_after_render pg a :
  Renders.now (Renders.step (Renders.step pg Renders.Render) (Renders.Handle a))
  = Home.step (Renders.now pg) a.
Proof. destruct a; reflexivity. Qed.

Lemma one_in_flight_handle pg a :
  (forall t, a = Home.Send t ->
             Renders.seen pg = Home.current (Renders.now pg)) ->
  Invariants.one_in_flight (Renders.now pg) ->
  Invariants.one_in_flight
    (Renders.handle (Renders.seen pg) (Renders.now pg) a).
Proof.
  intros F I. destruct a;
    try (apply (one_in_flight_step (Renders.now pg)); exact I);
    try exact I.
  rewrite handle_fresh by (eapply F; reflexivity).
  now apply one_in_flight_step.
Qed.

Lemma one_in_flight_events events :
  forall fresh pg,
    (fresh = true -> Renders.seen pg = Home.current (Renders.now pg)) ->
    Renders.sends_after_render fresh events = true ->
    Invariants.one_in_flight (Renders.now pg) ->
    Invariants.one_in_flight (Renders.now (Renders.run pg events)).
Proof.
  induction events as [|e events IH]; intros fresh pg S H I; [exact I|].
  destruct e as [|a].
  - apply (IH true); [reflexivity | exact H | exact I].
  - destruct a;
      try (apply (IH false);
           [discriminate | exact H
            | apply one_in_flight_handle; [discriminate | exact I]]).
    cbn [Renders.sends_after_render] in H.
    apply andb_true_iff in H as [H1 H2]. subst fresh.
    apply (IH false); [discriminate | exact H2 |].
    apply one_in_flight_handle; [intros; now apply S | exact I].
Qed.

(** X9: when every call of [send] comes right after a render, at most one
    request waits for its answer whatever else happens to the page, and
    one waits exactly while the page is loading. Two calls of [send] made
    by one render both pass the guard: then two requests wait and the
    page holds the turn of the user twice. *)
Theorem one_request_in_flight (events : list Renders.event) (text : jsstring) :
  (Renders.sends_after_render true events = true ->
   (Home.loading (Home.current (Renders.now (Renders.run Renders.start events)))
    = false
    /\ Home.pending (Renders.now (Renders.run Renders.start events)) = [])
   \/ (Home.loading
         (Home.current (Renders.now (Renders.run Renders.start events)))
       = true
       /\ exists body,
            Home.pending (Renders.now (Renders.run Renders.start events))
            = [body]))
  /\ (trim text <> [] ->
      Home.pending
        (Renders.now
           (Renders.run Renders.start
              [Renders.Handle (Home.SetInput text); Renders.Render;
               Renders.Handle (Home.Send None);
               Renders.Handle (Home.Send None)]))
      = [{| Route.Body.language := Tutor.en;
            Route.Body.mode := Tutor.explain;
            Route.Body.messages := [Home.user_turn (trim text)] |};
         {| Route.Body.language := Tutor.en;
            Route.Body.mode := Tutor.explain;
            Route.Body.messages := [Home.user_turn (trim text)] |}]
      /\ Home.messages
           (Home.current
              (Renders.now
                 (Renders.run Renders.start
                    [Renders.Handle (Home.SetInput text); Renders.Render;
                     Renders.Handle (Home.Send None);
                     Renders.Handle (Home.Send None)])))
         = [Home.user_turn (trim text); Home.user_turn (trim text)]).
Proof.
  split.
  - intros H.
    apply (one_in_flight_events events true Renders.start);
      [reflexivity | exact H | left; now split].
  - intros N. unfold Renders.run. cbn [fold_left].
    cbn [Renders.step Renders.handle Renders.start Renders.seen Renders.now
         Home.step Home.on_state Home.start Home.current Home.pending
         Home.sent].
    unfold Renders.send_start_from.
    cbn [Home.input Home.setInput Home.initial Home.loading Home.language
         Home.mode Home.messages].
    destruct (trim text) as [|c rest]; [congruence|]. split; reflexivity.
Qed.

Lemma one_request_in_flight_witness :
  (Home.loading
     (Home.current
        (Renders.now (Renders.run Renders.start Examples.two_questions_rendered)))
   = true
   /\ exists body,
        Home.pending
          (Renders.now
             (Renders.run Renders.start Examples.two_questions_rendered))
        = [body])
  /\ Home.messages
       (Home.current
          (Renders.now
             (Renders.run Renders.start
                [Renders.Handle (Home.SetInput (js " Hi ")); Renders.Render;
                 Renders.Handle (Home.Send None);
                 Renders.Handle (Home.Send None)])))
     = [Home.user_turn (js "Hi"); Home.user_turn (js "Hi")].
Proof.
  destruct (one_request_in_flight Examples.two_questions_rendered (js " Hi "))
    as [H T].
  split.
  - destruct (H eq_refl) as [[L _] | R]; [discriminate L | exact R].
  - apply T. discriminate.
Defined.


Lemma exchanges_app a b :
  Home.exchanges a = true -> Home.exchanges b = true ->
  Home.exchanges (a ++ b) = true.
Proof.
  intros A B.
  assert (G : forall n a, length a <= n -> Home.exchanges a = true ->
                          Home.exchanges (a ++ b) = true).
  { clear a A. induction n as [|n IH]; intros a L A.
    - destruct a; [exact B | simpl in L; lia].
    - destruct a as [|u [|v a]]; [exact B | discriminate A |].
      cbn [app Home.exchanges] in *.
      destruct (Route.Message.role u); [|discriminate A].
      destruct (Route.Message.role v); [discriminate A|].
      apply andb_true_iff in A as [A1 A2]. rewrite A1. cbn [andb].
      apply IH; [simpl in L; lia | exact A2]. }
  now apply (G (length a) a).
Qed.

Lemma exchanges_pair text reply :
  trim text = text -> text <> [] ->
  Home.exchanges [Home.user_turn text; Home.assistant_turn reply] = true.
Proof.
  intros T N.
  cbn [Home.exchanges Home.user_turn Home.assistant_turn Route.Message.role
       Route.Message.content].
  rewrite T. rewrite (proj2 (str_eqb_eq text text) eq_refl).
  destruct (str_eqb text []) eqn:E; [|reflexivity].
  apply str_eqb_eq in E. contradiction.
Qed.

Lemma conversation_step pg a :
  Invariants.one_in_flight pg -> Invariants.conversation pg ->
  (a = Home.GoToHome -> Home.loading (Home.current pg) = false) ->
  Invariants.conversation (Home.step pg a).
Proof.
  intros F (S & R & W) H. unfold Invariants.conversation.
  destruct a; try (now repeat split); cbn [Home.step].
  - destruct (send_start_cases textToSend (Home.current pg))
      as [E | (L & text & st' & N & T & E & M & L' & _)]; rewrite E.
    + now repeat split.
    + cbn. assert (Q : Invariants.request_shape
                         (Home.messages (Home.current pg)
                          ++ [Home.user_turn text])).
      { exists (Home.messages (Home.current pg)), text. auto. }
      split; [|split].
      * intros body I. apply in_app_or in I as [I | [<- | []]]; auto.
      * congruence.
      * intros _. now rewrite M.
  - destruct (Home.pending pg) as [|body rest] eqn:P; [now repeat split|].
    cbn. split; [exact S|]. split; [|discriminate].
    intros _. destruct F as [[_ P'] | [L _]]; [congruence|].
    destruct (W L) as (history & text & -> & X & T & N).
    rewrite <- app_assoc. apply exchanges_app; [exact X|].
    now apply exchanges_pair.
  - specialize (H eq_refl). cbn. split; [exact S|].
    split; [reflexivity | congruence].
Qed.

Lemma conversation_run actions :
  forall pg,
    Invariants.one_in_flight pg -> Invariants.conversation pg ->
    Home.home_at_rest pg actions = true ->
    Invariants.conversation (Home.run pg actions).
Proof.
  induction actions as [|a actions IH]; intros pg F C H; [exact C|].
  cbn [Home.home_at_rest] in H. apply andb_true_iff in H as [H1 H2].
  apply IH; [now apply one_in_flight_step | | exact H2].
  apply conversation_step; auto.
  intros ->. now apply negb_true_iff in H1.
Qed.

Lemma conversation_handle pg a :
  (forall t, a = Home.Send t ->
             Renders.seen pg = Home.current (Renders.now pg)) ->
  Invariants.one_in_flight (Renders.now pg) ->
  Invariants.conversation (Renders.now pg) ->
  (a = Home.GoToHome ->
   Home.loading (Home.current (Renders.now pg)) = false) ->
  Invariants.conversation
    (Renders.handle (Renders.seen pg) (Renders.now pg) a).
Proof.
  intros F I C G. destruct a;
    try (apply (conversation_step (Renders.now pg)); assumption);
    try exact C.
  rewrite handle_fresh by (eapply F; reflexivity).
  now apply conversation_step.
Qed.

Lemma conversation_events events :
  forall fresh pg,
    (fresh = true -> Renders.seen pg = Home.current (Renders.now pg)) ->
    Renders.sends_after_render fresh events = true ->
    Renders.home_at_rest pg events = true ->
    Invariants.one_in_flight (Renders.now pg) ->
    Invariants.conversation (Renders.now pg) ->
    Invariants.conversation (Renders.now (Renders.run pg events)).
Proof.
  induction events as [|e events IH]; intros fresh pg S H R I C; [exact C|].
  cbn [Renders.home_at_rest] in R. apply andb_true_iff in R as [R1 R2].
  destruct e as [|a].
  - apply (IH true); [reflexivity | exact H | exact R2 | exact I | exact C].
  - assert (G : a = Home.GoToHome ->
                Home.loading (Home.current (Renders.now pg)) = false)
      by (intros ->; now apply negb_true_iff in R1).
    destruct a;
      try (apply (IH false);
           [discriminate | exact H | exact R2
            | apply one_in_flight_handle; [discriminate | exact I]
            | apply conversation_handle;
              [discriminate | exact I | exact C | exact G]]).
    cbn [Renders.sends_after_render] in H.
    apply andb_true_iff in H as [H1 H2]. subst fresh.
    apply (IH false); [discriminate | exact H2 | exact R2 | |].
    + apply one_in_flight_handle; [intros; now apply S | exact I].
    + apply conversation_handle;
        [intros; now apply S | exact I | exact C | exact G].
Qed.

(** X10: when every call of [send] comes right after a render and the
    page is not sent home while a request waits, every request it makes
    carries whole exchanges (a turn of the user, then the answer to it)
    followed by the new turn of the user, a text that is trimmed and not
    empty; and whenever nothing is loading, the messages on the page are
    whole exchanges. *)
Theorem requests_end_with_new_user_turn (events : list Renders.event) :
  Renders.sends_after_render true events = true ->
  Renders.home_at_rest Renders.start events = true ->
  (forall body,
     In body (Home.sent (Renders.now (Renders.run Renders.start events))) ->
     exists history text,
       Route.Body.messages body = history ++ [Home.user_turn text]
       /\ Home.exchanges history = true
       /\ trim text = text
       /\ text <> [])
  /\ (Home.loading
        (Home.current (Renders.now (Renders.run Renders.start events)))
      = false ->
      Home.exchanges
        (Home.messages
           (Home.current (Renders.now (Renders.run Renders.start events))))
      = true).
Proof.
  intros H R.
  assert (C : Invariants.conversation
                (Renders.now (Renders.run Renders.start events))).
  { apply (conversation_events events true Renders.start);
      [reflexivity | exact H | exact R | left; now split |].
    repeat split; [intros body [] | discriminate]. }
  destruct C as (S & E & _). split; [exact S | exact E].
Qed.

Lemma requests_end_with_new_user_turn_witness :
  exists history text,
    Route.Body.messages
      {| Route.Body.language := Tutor.en;
         Route.Body.mode := Tutor.explain;
         Route.Body.messages :=
           [Home.user_turn (js "I go to school yesterday");
            Home.assistant_turn (js "I went to school yesterday.");
            Home.user_turn (js "and today")] |}
    = history ++ [Home.user_turn text]
    /\ Home.exchanges history = true
    /\ trim text = text
    /\ text <> [].
Proof.
  apply (requests_end_with_new_user_turn Examples.two_questions_rendered).
  - reflexivity.
  - reflexivity.
  - right. left. reflexivity.
Defined.



(** ** From the page to the provider and back *)

(** X13: a whole call of [send] on a page at rest with a text to send,
    answered by the route: the page gets the turn of the user and one turn
    of the assistant and is at rest again with its input empty. Without
    the key the turn of the assistant is the error of [getGroq] after
    [Erro: ]; when the provider answers it is the trimmed content of the
    first choice; when the provider fails it is the message of the
    failure after [Erro: ], or [Erro na resposta] when that message is
    empty. *)
Theorem send_through_route
  (key : option jsstring) (world : Route.provider) (st : Home.state) :
  trim (Home.input st) <> [] ->
  Home.loading st = false ->
  exists reply,
    Home.messages (Home.send (Home.route_fetch key world) None st)
    = Home.messages st
      ++ [Home.user_turn (trim (Home.input st)); Home.assistant_turn reply]
    /\ Home.loading (Home.send (Home.route_fetch key world) None st) = false
    /\ Home.input (Home.send (Home.route_fetch key world) None st) = []
    /\ (Route.missing key = true ->
        reply = js "Erro: GROQ_API_KEY n" ++ [227%N] ++ js "o configurada.")
    /\ (forall k,
          key = Some k -> k <> [] ->
          match world {| Route.apiKey := k |}
                  (Spec.outbound_call
                     {| Route.Body.language := Home.language st;
                        Route.Body.mode := Home.mode st;
                        Route.Body.messages :=
                          Home.messages st
                          ++ [Home.user_turn (trim (Home.input st))] |}) with
          | Ok completion => reply = Route.first_content completion
          | Throw err =>
              reply = js "Erro: "
                      ++ match Spec.error_string err with
                         | [] => js "Erro na resposta"
                         | message => message
                         end
          end).
Proof.
  intros N L.
  destruct (send_start_request st N L) as (st' & E & M & I).
  unfold Home.send. rewrite E.
  set (body := {| Route.Body.language := Home.language st;
                  Route.Body.mode := Home.mode st;
                  Route.Body.messages :=
                    Home.messages st
                    ++ [Home.user_turn (trim (Home.input st))] |}).
  exists (Home.reply_text (Home.route_fetch key world body)).
  split; [|split; [|split; [|split]]].
  - cbn. rewrite M, <- app_assoc. reflexivity.
  - reflexivity.
  - cbn. exact I.
  - intros K. unfold Home.route_fetch.
    destruct (POST_without_key world key (Ok body) K) as (err & -> & B).
    rewrite (B body eq_refl). reflexivity.
  - intros k -> K. unfold Home.route_fetch.
    rewrite (POST_with_key world k body K). cbv zeta.
    destruct (world {| Route.apiKey := k |} (Spec.outbound_call body))
      as [completion|err]; [reflexivity|].
    cbn. destruct (Spec.error_string err); reflexivity.
Qed.

Lemma send_through_route_witness :
  exists reply,
    Home.messages
      (Home.send (Home.route_fetch None (Examples.answering (js "Hi")))
         None (Home.setInput (js " Hello ") Home.initial))
    = [Home.user_turn (js "Hello"); Home.assistant_turn reply]
    /\ reply = js "Erro: GROQ_API_KEY n" ++ [227%N] ++ js "o configurada.".
Proof.
  destruct (send_through_route None (Examples.answering (js "Hi"))
              (Home.setInput (js " Hello ") Home.initial))
    as (reply & M & _ & _ & K & _).
  - discriminate.
  - reflexivity.
  - exists reply. split; [exact M | apply K; reflexivity].
Defined.

(** X14: every language and every mode has its label in the list of the
    menu, so the fallback label is never shown, and different values have
    different labels. *)
Theorem labels_cover_every_value :
  (forall l, In (l, Home.langLabel l) Home.LANG_OPTIONS)
  /\ (forall m, In (m, Home.modeLabel m) Home.MODE_OPTIONS)
  /\ (forall l l', Home.langLabel l = Home.langLabel l' -> l = l')
  /\ (forall m m', Home.modeLabel m = Home.modeLabel m' -> m = m').
Proof.
  repeat apply conj.
  - intros []; simpl; auto.
  - intros []; simpl; auto 6.
  - intros [] [] H; try reflexivity; vm_compute in H; discriminate H.
  - intros [] [] H; try reflexivity; vm_compute in H; discriminate H.
Qed.

(** X18: when the request fails (the fetch throws, the answer cannot be
    read, or its status is not ok), the turn of the assistant starts with
    [Erro: ] and is shown as it is in every mode. *)
Theorem failed_request_is_shown_as_error
  (outcome : result Route.exception Home.Fetch.response)
  (mode : Tutor.TutorMode) :
  (forall res data,
     outcome = Ok res -> Home.Fetch.json res = Ok data ->
     Home.Fetch.ok res = false) ->
  exists message,
    Home.reply_text outcome = js "Erro: " ++ message
    /\ Page.AssistantMessage (Home.reply_text outcome) mode
       = {| Page.shown := Page.ContentText (Home.reply_text outcome);
            Page.ttsText := Home.reply_text outcome |}.
Proof.
  intros F.
  assert (E : exists message, Home.reply_text outcome = js "Erro: " ++ message).
  { unfold Home.reply_text. destruct outcome as [res|e]; [|cbn; eauto].
    cbn [bind]. destruct (Home.Fetch.json res) as [data|e] eqn:J; [|cbn; eauto].
    cbn [bind]. rewrite (F res data eq_refl J). cbn. eauto. }
  destruct E as [message E]. exists message. split; [exact E|].
  rewrite E. destruct (decoders_reject_error_turn message) as [X I].
  unfold Page.AssistantMessage. destruct mode; rewrite ?X, ?I; reflexivity.
Qed.

(** * Properties of reading aloud *)

Section SpeakProperties.

Variable toLowerCase : jsstring -> jsstring.

(** X15: the voice [speak] takes is one of the voices at hand and of the
    language asked for; none is taken exactly when no voice is of the
    language; when a voice of the language has a natural name, the voice
    taken has one; otherwise it is the first voice of the language. *)
Theorem choose_voice_of_language (voices : list Speech.Voice.t) (lang : jsstring) :
  (forall v,
     Speech.choose_voice toLowerCase voices lang = Some v ->
     In v voices /\ Speech.matches toLowerCase lang v = true)
  /\ (Speech.choose_voice toLowerCase voices lang = None
      <-> forall v, In v voices -> Speech.matches toLowerCase lang v = false)
  /\ (forall w,
        In w voices -> Speech.matches toLowerCase lang w = true ->
        Speech.naturalKeywords_test (Speech.Voice.name w) = true ->
        exists v,
          Speech.choose_voice toLowerCase voices lang = Some v
          /\ Speech.naturalKeywords_test (Speech.Voice.name v) = true)
  /\ ((forall w,
         In w voices -> Speech.matches toLowerCase lang w = true ->
         Speech.naturalKeywords_test (Speech.Voice.name w) = false) ->
      Speech.choose_voice toLowerCase voices lang
      = find (Speech.matches toLowerCase lang) voices).
Proof.
  unfold Speech.choose_voice. cbv zeta.
  set (byLang := filter (Speech.matches toLowerCase lang) voices).
  set (natural := fun v : Speech.Voice.t =>
                    Speech.naturalKeywords_test (Speech.Voice.name v)).
  assert (FI : forall v, In v byLang <->
                         In v voices /\ Speech.matches toLowerCase lang v = true)
    by (intros v; apply filter_In).
  split; [|split; [|split]].
  - intros v. destruct (find natural byLang) as [p|] eqn:F.
    + intros [= <-]. apply find_some in F as [F _]. now apply FI.
    + destruct byLang as [|b r] eqn:B; [discriminate|].
      intros [= <-]. apply FI. now left.
  - split.
    + destruct (find natural byLang) as [p|] eqn:F; [discriminate|].
      destruct byLang as [|b r] eqn:B; [|discriminate].
      intros _ v I. destruct (Speech.matches toLowerCase lang v) eqn:M; auto.
      exfalso. apply (proj2 (FI v)). now split.
    + intros H. destruct (find natural byLang) as [p|] eqn:F.
      * apply find_some in F as [F _]. apply FI in F as [I M].
        rewrite (H p I) in M. discriminate.
      * destruct byLang as [|b r] eqn:B; [reflexivity|].
        assert (I : In b (b :: r)) by now left.
        apply FI in I as [I M]. rewrite (H b I) in M. discriminate.
  - intros w I M Nw. destruct (find natural byLang) as [p|] eqn:F.
    + exists p. split; [reflexivity|]. now apply find_some in F.
    + exfalso. pose proof (find_none _ _ F w) as X.
      unfold natural in X. rewrite X in Nw; [discriminate|].
      apply FI. now split.
  - intros H. destruct (find natural byLang) as [p|] eqn:F.
    + exfalso. apply find_some in F as [F Np]. apply FI in F as [I M].
      unfold natural in Np. now rewrite (H p I M) in Np.
    + subst byLang. clear. induction voices as [|v vs IH]; [reflexivity|].
      simpl. destruct (Speech.matches toLowerCase lang v); [reflexivity|].
      exact IH.
Qed.

(** X16: [speak] does nothing for a text that is blank; for any other
    text it cancels what is being read and reads the trimmed text once, in
    German when the language is [de] and in English of the United States
    for every other language. *)
Theorem speak_reads_trimmed_text
  (cached fresh : list Speech.Voice.t) (text lang : jsstring) :
  (trim text = [] -> Speech.speak toLowerCase cached fresh text lang = [])
  /\ (trim text <> [] ->
      exists u,
        Speech.speak toLowerCase cached fresh text lang
        = [Speech.Cancel; Speech.Speak u]
        /\ Speech.Utterance.text u = trim text
        /\ (lang = js "de" -> Speech.Utterance.lang u = js "de-DE")
        /\ (lang <> js "de" -> Speech.Utterance.lang u = js "en-US")
        /\ Speech.Utterance.voice u
           = Speech.choose_voice toLowerCase
               match cached with [] => fresh | _ => cached end lang).
Proof.
  unfold Speech.speak. split.
  - now intros ->.
  - intros N. destruct (trim text) as [|c r]; [congruence|].
    eexists. split; [reflexivity|]. cbn.
    repeat split.
    + intros ->. reflexivity.
    + intros D. unfold Speech.langCode, Speech.is_de.
      destruct (str_eqb lang (js "de")) eqn:E; [|reflexivity].
      apply str_eqb_eq in E. contradiction.
Qed.

(** X17: the button of an informal answer reads the informal phrase in
    English, whatever the language of the tutor. *)
Theorem informal_answer_is_read_in_English
  (content lang : jsstring) (i : Page.InformalResponse)
  (cached fresh : list Speech.Voice.t) :
  Page.parseInformal content = Some i ->
  trim (Page.informal i) <> [] ->
  Speech.listen content Tutor.informal lang
  = Some (Page.informal i, js "en")
  /\ exists u,
       Speech.speak toLowerCase cached fresh (Page.informal i) (js "en")
       = [Speech.Cancel; Speech.Speak u]
       /\ Speech.Utterance.lang u = js "en-US".
Proof.
  intros P N. split.
  - unfold Speech.listen, Page.AssistantMessage. rewrite P. cbn.
    destruct (Page.informal i); [now elim N | reflexivity].
  - unfold Speech.speak. destruct (trim (Page.informal i)); [congruence|].
    eexists. split; reflexivity.
Qed.

End SpeakProperties.

Lemma choose_voice_of_language_witness :
  exists v,
    Speech.choose_voice Examples.ascii_lower Examples.voices (js "en") = Some v
    /\ Speech.naturalKeywords_test (Speech.Voice.name v) = true.
Proof.
  apply (choose_voice_of_language Examples.ascii_lower Examples.voices (js "en"))
    with (w := {| Speech.Voice.name := js "Google US English";
                  Speech.Voice.lang := js "en-US" |}).
  - right. right. left. reflexivity.
  - reflexivity.
  - reflexivity.
Defined.

Lemma speak_reads_trimmed_text_witness :
  exists u,
    Speech.speak Examples.ascii_lower Examples.voices [] (js " Guten Tag ")
      (js "de")
    = [Speech.Cancel; Speech.Speak u]
    /\ Speech.Utterance.text u = js "Guten Tag"
    /\ Speech.Utterance.lang u = js "de-DE"
    /\ Speech.Utterance.voice u
       = Some {| Speech.Voice.name := js "Anna"; Speech.Voice.lang := js "de_DE" |}.
Proof.
  destruct (speak_reads_trimmed_text Examples.ascii_lower Examples.voices []
              (js " Guten Tag ") (js "de")) as [_ H].
  destruct H as (u & S & T & D & _ & V); [discriminate|].
  exists u. split; [exact S|]. split; [exact T|].
  split; [apply D; reflexivity | exact V].
Defined.

Lemma informal_answer_is_read_in_English_witness :
  Speech.listen Examples.informal_answer Tutor.informal (js "de")
  = Some (js "Yeah, that works.", js "en").
Proof.
  apply (informal_answer_is_read_in_English Examples.ascii_lower
           Examples.informal_answer (js "de")
           {| Page.informal := js "Yeah, that works.";
              Page.alreadyCorrect := false;
              Page.informalTranslation := js "Sim, funciona." |}
           Examples.voices []).
  - reflexivity.
  - discriminate.
Defined.

Lemma failed_request_is_shown_as_error_witness :
  exists message,
    Home.reply_text
      (Ok {| Home.Fetch.ok := false;
             Home.Fetch.json :=
               Ok {| Home.Fetch.content := None;
                     Home.Fetch.error := Some [] |} |})
    = js "Erro: " ++ message
    /\ message = js "Erro na resposta".
Proof.
  destruct (failed_request_is_shown_as_error
              (Ok {| Home.Fetch.ok := false;
                     Home.Fetch.json :=
                       Ok {| Home.Fetch.content := None;
                             Home.Fetch.error := Some [] |} |})
              Tutor.explain) as (message & E & _).
  - intros res data [= <-] _. reflexivity.
  - exists message. split; [exact E|].
    cbn in E. now injection E.
Defined.
